(** * Best V3 trade selection (src/hooks/useBestV3Trade.ts)

    A shallow embedding of the two hooks [useBestV3TradeExactIn] and
    [useBestV3TradeExactOut]: the state classification, the reduction of
    the per-route quotes to one winning route, and the trade that is built
    from the winner.

    Conventions of the embedding.
    - An ethers [BigNumber] and a [JSBI] integer are unbounded integers: [Z].
    - [null] and [undefined] are [None]; a JavaScript truthiness test on a
      number is a test against zero.
    - Reading a property of [undefined] throws a [TypeError]; the reducer
      reads [routes[i].tokenPath], so the model threads that exception
      through [Array.prototype.reduce] with the [js] monad below.
    - [Percent] of the SDK stores its arguments. [TokenAmount],
      [CurrencyAmount.ether] and [Trade.createUncheckedTrade] check the
      invariants of the SDK first (the amount is at most [2^256 - 1]; the
      currencies of the two amounts are those of the route) and throw when
      one fails; the message of that error is not modelled.
    - The hooks that feed the selector ([useAllV3Routes],
      [useSingleContractMultipleData]) are collaborators: their outputs
      ([routes], [routesLoading], [quotesResults]) are inputs here. *)

From Stdlib Require Import ZArith Lia Ascii HexString.
From stdpp Require Import base option list strings.

Local Open Scope Z_scope.

(** ** Results of JavaScript code that may throw *)

(** [TypeError]: a property of [undefined] is read. [InvariantError]: an
    [invariant(...)] of the SDK fails. *)
Inductive js (A : Type) : Type :=
| Ok (a : A)
| TypeError
| InvariantError.
Arguments Ok {A} a.
Arguments TypeError {A}.
Arguments InvariantError {A}.

Definition js_bind {A B : Type} (m : js A) (k : A -> js B) : js B :=
  match m with
  | Ok a => k a
  | TypeError => TypeError
  | InvariantError => InvariantError
  end.

Notation "x <-js m ;; k" := (js_bind m (fun x => k))
  (at level 100, m at next level, right associativity).

(** [xs.reduce(f, init)]: the callback receives the accumulator, the
    element and its index; an exception thrown by the callback ends the
    reduction. [i] is the index of the head of [xs]. *)
Fixpoint reduce_from {Acc E : Type} (f : Acc -> E -> nat -> js Acc)
    (xs : list E) (i : nat) (acc : Acc) : js Acc :=
  match xs with
  | [] => Ok acc
  | x :: xs' => acc' <-js f acc x i ;; reduce_from f xs' (S i) acc'
  end.

Definition reduce {Acc E : Type} (f : Acc -> E -> nat -> js Acc)
    (xs : list E) (init : Acc) : js Acc :=
  reduce_from f xs 0%nat init.

(** ** Fractions of the SDK ([Fraction] and [Percent] of @uniswap/sdk-core)

    A fraction is a pair of integers that is never normalised; the
    constructor accepts any denominator. Subtraction keeps the denominator
    when both operands share it and cross-multiplies otherwise; the
    comparisons cross-multiply. *)

Record Fraction : Type := Percent { numerator : Z; denominator : Z }.

Definition subtract (x y : Fraction) : Fraction :=
  if denominator x =? denominator y
  then Percent (numerator x - numerator y) (denominator x)
  else Percent (numerator x * denominator y - numerator y * denominator x)
               (denominator x * denominator y).

Definition lessThan (x y : Fraction) : bool :=
  numerator x * denominator y <? numerator y * denominator x.

Definition greaterThan (x y : Fraction) : bool :=
  numerator x * denominator y >? numerator y * denominator x.

(** ** Data model *)

Inductive V3TradeState : Type :=
| LOADING
| INVALID
| NO_ROUTE_FOUND
| VALID
| SYNCING.

Record Token : Type := { chainId : Z; address : string; decimals : Z }.

(** A [Currency] is either the native currency or a [Token]
    ([currency instanceof Token]). *)
Inductive Currency : Type :=
| ETHER
| TokenCurrency (t : Token).

Record CurrencyAmount : Type := { currency : Currency; raw : Z }.

(** [2^256 - 1], the largest amount the SDK accepts. *)
Definition MaxUint256 : Z := 2 ^ 256 - 1.

(** The constructor of [CurrencyAmount]:
    [invariant(JSBI.lessThanOrEqual(parsedAmount, MaxUint256), 'AMOUNT')],
    then the fields are stored. *)
Definition newCurrencyAmount (c : Currency) (amount : Z) : js CurrencyAmount :=
  if amount <=? MaxUint256
  then Ok {| currency := c; raw := amount |}
  else InvariantError.

(** [new TokenAmount(token, amount)] and [CurrencyAmount.ether(amount)]. *)
Definition TokenAmount (t : Token) (amount : Z) : js CurrencyAmount :=
  newCurrencyAmount (TokenCurrency t) amount.

Definition CurrencyAmount_ether (amount : Z) : js CurrencyAmount :=
  newCurrencyAmount ETHER amount.

(** [token.equals(other)]: same chain and same address. *)
Definition Token_equals (a b : Token) : bool :=
  (chainId a =? chainId b) && String.eqb (address a) (address b).

(** [currencyEquals(currencyA, currencyB)] of the SDK. *)
Definition currencyEquals (a b : Currency) : bool :=
  match a, b with
  | TokenCurrency x, TokenCurrency y => Token_equals x y
  | ETHER, ETHER => true
  | _, _ => false
  end.

(** A [Route] of the SDK: the currencies it connects and the tokens on its
    path; its pools are not read by the hooks. *)
Record Route : Type := {
  input : Currency;
  output : Currency;
  tokenPath : list Token
}.

Inductive TradeType : Type :=
| EXACT_INPUT
| EXACT_OUTPUT.

Record Trade : Type := mkTrade {
  route : Route;
  tradeType : TradeType;
  inputAmount : CurrencyAmount;
  outputAmount : CurrencyAmount
}.

(** [Trade.createUncheckedTrade({ route, tradeType, inputAmount, outputAmount })]:
    the constructor of [Trade] checks
    [invariant(currencyEquals(inputAmount.currency, route.input), ...)] and
    [invariant(currencyEquals(outputAmount.currency, route.output), ...)],
    then stores its four arguments. *)
Definition createUncheckedTrade (route : Route) (tradeType : TradeType)
    (inputAmount outputAmount : CurrencyAmount) : js Trade :=
  if negb (currencyEquals (currency inputAmount) (input route)) then InvariantError
  else if negb (currencyEquals (currency outputAmount) (output route)) then InvariantError
  else Ok (mkTrade route tradeType inputAmount outputAmount).

(** One entry of [quotesResults]. [result] is the decoded return value of
    the quoter call, of which the hooks read [result.amountOut]
    (exact input) or [result.amountIn] (exact output); it is [undefined]
    while there is no usable number. *)
Record CallState : Type := {
  valid : bool;
  result : option Z;
  loading : bool;
  syncing : bool
}.

Record SelectionResult : Type := {
  state : V3TradeState;
  trade : option Trade
}.

(** [xs.some(p)] *)
Definition some {A : Type} (p : A -> bool) (xs : list A) : bool := existsb p xs.

(** Truthiness of [bestRoute?.tokenPath?.length]: a number that is not 0. *)
Definition truthy (n : option nat) : bool :=
  match n with
  | Some k => negb (k =? 0)%nat
  | None => false
  end.

(** [hopsResult < hopsCurrentBest], evaluated only behind the truthiness
    test of [hopsCurrentBest]. *)
Definition hops_lt (hopsResult : nat) (hopsCurrentBest : option nat) : bool :=
  match hopsCurrentBest with
  | Some k => (hopsResult <? k)%nat
  | None => false
  end.

(** The accumulator of both reductions:
    [{ bestRoute: Route | null; amountOut: BigNumber | null }], with the
    amount field named [amountIn] in the exact-output hook. *)
Record Best : Type := {
  bestRoute : option Route;
  bestAmount : option Z
}.

Definition noBest : Best := {| bestRoute := None; bestAmount := None |}.

Section Selectors.

(** The three constants of [constants/index]. *)
Variable ONE_BIPS : Fraction.
Variable BETTER_TRADE_LESS_HOPS_THRESHOLD : Fraction.
Variable ONE_HUNDRED_PERCENT : Fraction.

(** *** Exact input *)

(** The callback of [quotesResults.reduce] in [useBestV3TradeExactIn]. *)
Definition exactInReducer (routes : list Route)
    (currentBest : Best) (q : CallState) (i : nat) : js Best :=
  match result q with
  | None => Ok currentBest
  | Some amountOut =>
    match bestAmount currentBest with
    | None => Ok {| bestRoute := routes !! i; bestAmount := Some amountOut |}
    | Some currentAmountOut =>
      let hopsCurrentBest :=
        (fun r => length (tokenPath r)) <$> bestRoute currentBest in
      match routes !! i with
      | None => TypeError
      | Some routes_i =>
        let hopsResult := length (tokenPath routes_i) in
        let amountRatio := Percent currentAmountOut amountOut in
        let belowThreshold :=
          lessThan (subtract amountRatio ONE_BIPS)
                   BETTER_TRADE_LESS_HOPS_THRESHOLD in
        let resultBetterThanCurrent := currentAmountOut <? amountOut in
        if (negb resultBetterThanCurrent && truthy hopsCurrentBest
            && belowThreshold && hops_lt hopsResult hopsCurrentBest)
           || resultBetterThanCurrent
        then Ok {| bestRoute := Some routes_i; bestAmount := Some amountOut |}
        else Ok currentBest
      end
    end
  end.

(** The body of the [useMemo] callback of [useBestV3TradeExactIn]. *)
Definition bestV3TradeExactIn
    (amountIn : option CurrencyAmount) (currencyOut : option Currency)
    (routes : list Route) (routesLoading : bool)
    (quotesResults : list CallState) : js SelectionResult :=
  match amountIn, currencyOut with
  | Some amountIn, Some currencyOut =>
    if routesLoading || some loading quotesResults
    then Ok {| state := LOADING; trade := None |}
    else
      best <-js reduce (exactInReducer routes) quotesResults noBest ;;
      match bestRoute best, bestAmount best with
      | Some bestRoute, Some amountOut =>
        let isSyncing := some syncing quotesResults in
        outputAmount <-js
          match currencyOut with
          | TokenCurrency t => TokenAmount t amountOut
          | ETHER => CurrencyAmount_ether amountOut
          end ;;
        trade <-js createUncheckedTrade bestRoute EXACT_INPUT amountIn outputAmount ;;
        Ok {| state := if isSyncing then SYNCING else VALID; trade := Some trade |}
      | _, _ => Ok {| state := NO_ROUTE_FOUND; trade := None |}
      end
  | _, _ => Ok {| state := INVALID; trade := None |}
  end.

(** *** Exact output *)

(** The callback of [quotesResults.reduce] in [useBestV3TradeExactOut]. *)
Definition exactOutReducer (routes : list Route)
    (currentBest : Best) (q : CallState) (i : nat) : js Best :=
  match result q with
  | None => Ok currentBest
  | Some amountIn =>
    match bestAmount currentBest with
    | None => Ok {| bestRoute := routes !! i; bestAmount := Some amountIn |}
    | Some currentAmountIn =>
      let hopsCurrentBest :=
        (fun r => length (tokenPath r)) <$> bestRoute currentBest in
      match routes !! i with
      | None => TypeError
      | Some routes_i =>
        let hopsResult := length (tokenPath routes_i) in
        let amountRatio := Percent amountIn currentAmountIn in
        let belowThreshold :=
          greaterThan (subtract ONE_HUNDRED_PERCENT amountRatio)
                      BETTER_TRADE_LESS_HOPS_THRESHOLD in
        let resultBetterThanCurrent := currentAmountIn >? amountIn in
        if (truthy hopsCurrentBest && negb resultBetterThanCurrent
            && belowThreshold && hops_lt hopsResult hopsCurrentBest)
           || resultBetterThanCurrent
        then Ok {| bestRoute := Some routes_i; bestAmount := Some amountIn |}
        else Ok currentBest
      end
    end
  end.

(** The body of the [useMemo] callback of [useBestV3TradeExactOut]. *)
Definition bestV3TradeExactOut
    (currencyIn : option Currency) (amountOut : option CurrencyAmount)
    (routes : list Route) (routesLoading : bool)
    (quotesResults : list CallState) : js SelectionResult :=
  match amountOut, currencyIn with
  | Some amountOut, Some currencyIn =>
    if some (fun q => negb (valid q)) quotesResults
    then Ok {| state := INVALID; trade := None |}
    else if routesLoading || some loading quotesResults
    then Ok {| state := LOADING; trade := None |}
    else
      best <-js reduce (exactOutReducer routes) quotesResults noBest ;;
      match bestRoute best, bestAmount best with
      | Some bestRoute, Some amountIn =>
        let isSyncing := some syncing quotesResults in
        inputAmount <-js
          match currencyIn with
          | TokenCurrency t => TokenAmount t amountIn
          | ETHER => CurrencyAmount_ether amountIn
          end ;;
        trade <-js createUncheckedTrade bestRoute EXACT_OUTPUT inputAmount amountOut ;;
        Ok {| state := if isSyncing then SYNCING else VALID; trade := Some trade |}
      | _, _ => Ok {| state := NO_ROUTE_FOUND; trade := None |}
      end
  | _, _ => Ok {| state := INVALID; trade := None |}
  end.

End Selectors.

(** ** The reduction rules in the words of the specification

    Sections 4.2 and 4.3 of the specification describe the reduction as a
    left fold over the aligned (route, quote) pairs. The definitions below
    follow that text; the theorems relate them to the reducers above. *)

(** "hopCount = tokenPath.length - 1" *)
Definition hopCount (r : Route) : Z := Z.of_nat (length (tokenPath r)) - 1.

(** "candidateHopCount < currentBestHopCount", for a known hop count. *)
Definition fewerHops (candidateHopCount : Z) (currentBestHopCount : option Z) : Prop :=
  from_option (fun h => candidateHopCount < h) False currentBestHopCount.

Section SpecReducers.

Variable ONE_BIPS : Fraction.
Variable BETTER_TRADE_LESS_HOPS_THRESHOLD : Fraction.
Variable ONE_HUNDRED_PERCENT : Fraction.

(** Exact input: "(ratio - ONE_BIPS) < BETTER_TRADE_LESS_HOPS_THRESHOLD"
    with "ratio = Percent(B, R)". *)
Definition withinThresholdIn (B R : Z) : Prop :=
  lessThan (subtract (Percent B R) ONE_BIPS) BETTER_TRADE_LESS_HOPS_THRESHOLD = true.

(** Exact input: the candidate with amount [R] replaces the best with
    amount [B]. *)
Definition adoptExactIn (B R : Z)
    (currentBestHopCount : option Z) (candidateHopCount : Z) : Prop :=
  B < R \/
  (B >= R /\ is_Some currentBestHopCount /\ withinThresholdIn B R /\
   fewerHops candidateHopCount currentBestHopCount).

(** Exact output: "(ONE_HUNDRED_PERCENT - ratio) >
    BETTER_TRADE_LESS_HOPS_THRESHOLD" with "ratio = Percent(R, B)". *)
Definition withinThresholdOut (B R : Z) : Prop :=
  greaterThan (subtract ONE_HUNDRED_PERCENT (Percent R B))
              BETTER_TRADE_LESS_HOPS_THRESHOLD = true.

(** Exact output: the candidate with required input [R] replaces the best
    with required input [B]. *)
Definition adoptExactOut (B R : Z)
    (currentBestHopCount : option Z) (candidateHopCount : Z) : Prop :=
  B > R \/
  (B <= R /\ is_Some currentBestHopCount /\ withinThresholdOut B R /\
   fewerHops candidateHopCount currentBestHopCount).

#[global] Instance fewerHops_dec c h : Decision (fewerHops c h).
Proof. destruct h; simpl; apply _. Defined.

#[global] Instance adoptExactIn_dec B R hb hc : Decision (adoptExactIn B R hb hc).
Proof. unfold adoptExactIn, withinThresholdIn. apply _. Defined.

#[global] Instance adoptExactOut_dec B R hb hc : Decision (adoptExactOut B R hb hc).
Proof. unfold adoptExactOut, withinThresholdOut. apply _. Defined.

(** One step of the fold, for either direction: skip a pair without an
    amount, adopt the first usable pair, otherwise adopt exactly when the
    rule [adopt] says so. *)
Definition specStep (adopt : Z -> Z -> option Z -> Z -> bool)
    (best : Best) (pair : Route * CallState) : Best :=
  match result pair.2 with
  | None => best
  | Some R =>
    match bestAmount best with
    | None => {| bestRoute := Some pair.1; bestAmount := Some R |}
    | Some B =>
      if adopt B R (hopCount <$> bestRoute best) (hopCount pair.1)
      then {| bestRoute := Some pair.1; bestAmount := Some R |}
      else best
    end
  end.

Definition specReduceIn (pairs : list (Route * CallState)) : Best :=
  foldl (specStep (fun B R hb hc => bool_decide (adoptExactIn B R hb hc)))
        noBest pairs.

Definition specReduceOut (pairs : list (Route * CallState)) : Best :=
  foldl (specStep (fun B R hb hc => bool_decide (adoptExactOut B R hb hc)))
        noBest pairs.

End SpecReducers.

(** The positional alignment of the route list and the quote list. *)
Definition aligned (routes : list Route) (quotesResults : list CallState) : Prop :=
  length routes = length quotesResults.

(** ** The state classification in the words of the specification

    Section 4.1: the four rules, evaluated in order, first match wins.
    [noWinner] says that the reduction yields no winner. *)
Definition specState (amountSpecified otherCurrency : bool)
    (routesLoading : bool) (quotes : list CallState) (noWinner : bool) : V3TradeState :=
  if negb amountSpecified || negb otherCurrency then INVALID
  else if routesLoading || existsb loading quotes then LOADING
  else if noWinner then NO_ROUTE_FOUND
  else if existsb syncing quotes then SYNCING
  else VALID.

(** "The reduction yields no winner". *)
Definition noWinner (best : Best) : bool :=
  match bestRoute best with
  | Some _ => false
  | None => true
  end.

(** ** The first strict minimum of the usable quotes *)

(** The pair at position [i] carries route [r] and the usable amount [a]. *)
Definition usableAt (pairs : list (Route * CallState)) (i : nat) (r : Route) (a : Z) : Prop :=
  exists q, pairs !! i = Some (r, q) /\ result q = Some a.

(** [best] is the first pair, in list order, whose usable amount is the
    minimum of all usable amounts; it is [noBest] when no pair is usable. *)
Definition firstMinimum (pairs : list (Route * CallState)) (best : Best) : Prop :=
  (best = noBest /\ forall i r a, ~ usableAt pairs i r a) \/
  (exists i r a,
      best = {| bestRoute := Some r; bestAmount := Some a |} /\
      usableAt pairs i r a /\
      (forall j r' a', usableAt pairs j r' a' -> a <= a') /\
      (forall j r' a', (j < i)%nat -> usableAt pairs j r' a' -> a < a')).

(** Every quoted amount is a non-negative integer (a [uint256] returned by
    the quoter contract). *)
Definition nonNegativeQuotes (quotes : list CallState) : Prop :=
  Forall (fun q => from_option (fun a => 0 <= a) True (result q)) quotes.

(** A threshold that is a non-negative rational with a positive denominator. *)
Definition nonNegativeFraction (f : Fraction) : Prop :=
  0 <= numerator f /\ 0 < denominator f.

(** A representation [n/n], [n > 0], of one hundred percent. *)
Definition isOneHundredPercent (f : Fraction) : Prop :=
  0 < denominator f /\ numerator f = denominator f.

(** ** React's [useMemo]

    A memo cell holds the dependencies and the value of the last
    computation. [useMemo] returns the stored value when the new
    dependencies are the same objects as the stored ones ([sameDeps],
    React's [Object.is] on each dependency) and recomputes otherwise. *)
Section UseMemo.

Context {D V : Type}.
Variable sameDeps : D -> D -> bool.

Definition useMemo (compute : unit -> V) (deps : D) (cell : option (D * V))
    : V * option (D * V) :=
  match cell with
  | Some (deps', v) =>
    if sameDeps deps' deps then (v, cell)
    else let v' := compute tt in (v', Some (deps, v'))
  | None => let v' := compute tt in (v', Some (deps, v'))
  end.

End UseMemo.

(** The dependency array [[amountIn, currencyOut, quotesResults, routes,
    routesLoading]] of the exact-input hook; the exact-output hook has
    [[amountOut, currencyIn, quotesResults, routes, routesLoading]]. *)
Record Deps : Type := {
  depAmount : option CurrencyAmount;
  depCurrency : option Currency;
  depQuotesResults : list CallState;
  depRoutes : list Route;
  depRoutesLoading : bool
}.

#[global] Instance Token_eq_dec : EqDecision Token.
Proof. solve_decision. Defined.
#[global] Instance Currency_eq_dec : EqDecision Currency.
Proof. solve_decision. Defined.
#[global] Instance CurrencyAmount_eq_dec : EqDecision CurrencyAmount.
Proof. solve_decision. Defined.
#[global] Instance Route_eq_dec : EqDecision Route.
Proof. solve_decision. Defined.
#[global] Instance CallState_eq_dec : EqDecision CallState.
Proof. solve_decision. Defined.
#[global] Instance Deps_eq_dec : EqDecision Deps.
Proof. solve_decision. Defined.

Section Hooks.

Variable ONE_BIPS : Fraction.
Variable BETTER_TRADE_LESS_HOPS_THRESHOLD : Fraction.
Variable ONE_HUNDRED_PERCENT : Fraction.
Variable sameDeps : Deps -> Deps -> bool.

(** [useBestV3TradeExactIn]: [return useMemo(() => { ... }, [...])]. The
    memo cell is the state React keeps for the hook between renders. *)
Definition useBestV3TradeExactIn (d : Deps) (cell : option (Deps * js SelectionResult))
    : js SelectionResult * option (Deps * js SelectionResult) :=
  useMemo sameDeps
    (fun _ => bestV3TradeExactIn ONE_BIPS BETTER_TRADE_LESS_HOPS_THRESHOLD
                (depAmount d) (depCurrency d) (depRoutes d) (depRoutesLoading d)
                (depQuotesResults d))
    d cell.

(** [useBestV3TradeExactOut]: [return useMemo(() => { ... }, [...])]. *)
Definition useBestV3TradeExactOut (d : Deps) (cell : option (Deps * js SelectionResult))
    : js SelectionResult * option (Deps * js SelectionResult) :=
  useMemo sameDeps
    (fun _ => bestV3TradeExactOut BETTER_TRADE_LESS_HOPS_THRESHOLD ONE_HUNDRED_PERCENT
                (depCurrency d) (depAmount d) (depRoutes d) (depRoutesLoading d)
                (depQuotesResults d))
    d cell.

End Hooks.

(** The memo cell after a sequence of renders of [hook], starting from the
    first mount of the component. *)
Definition afterRenders {V : Type}
    (hook : Deps -> option (Deps * V) -> V * option (Deps * V))
    (history : list Deps) : option (Deps * V) :=
  foldl (fun cell d => (hook d cell).2) None history.

(** Modelled from the spec: [constants/index] is not among the sources.
    "ONE_BIPS = 1/10000 as an exact rational"; the scenarios of the
    specification take a threshold of 50 basis points; one hundred percent
    is the fraction 1/1. These values instantiate the constants in the
    examples below. *)
Definition oneBips : Fraction := Percent 1 10000.
Definition fiftyBips : Fraction := Percent 50 10000.
Definition oneHundredPercent : Fraction := Percent 1 1.

(** Routes and quotes of the examples: a one-hop and a three-hop route. *)
Definition tokenA : Token := {| chainId := 1; address := "0xA"; decimals := 18 |}.
Definition tokenB : Token := {| chainId := 1; address := "0xB"; decimals := 18 |}.
Definition tokenC : Token := {| chainId := 1; address := "0xC"; decimals := 6 |}.
Definition tokenD : Token := {| chainId := 1; address := "0xD"; decimals := 18 |}.
Definition hop1 : Route :=
  {| input := TokenCurrency tokenA; output := TokenCurrency tokenB;
     tokenPath := [tokenA; tokenB] |}.
Definition hop3 : Route :=
  {| input := TokenCurrency tokenA; output := TokenCurrency tokenB;
     tokenPath := [tokenA; tokenC; tokenD; tokenB] |}.

(** Another three-hop route. *)
Definition hop3' : Route :=
  {| input := TokenCurrency tokenA; output := TokenCurrency tokenB;
     tokenPath := [tokenA; tokenD; tokenC; tokenB] |}.

(** An amount object of the caller. *)
Definition amountOf (c : Currency) (amount : Z) : CurrencyAmount :=
  {| currency := c; raw := amount |}.

Definition quote (amount : Z) : CallState :=
  {| valid := true; result := Some amount; loading := false; syncing := false |}.
Definition quoteLoading : CallState :=
  {| valid := true; result := None; loading := true; syncing := false |}.
Definition quoteInvalid : CallState :=
  {| valid := false; result := None; loading := false; syncing := false |}.
Definition quoteEmpty : CallState :=
  {| valid := true; result := None; loading := false; syncing := false |}.

(** The rule of one reduction step, read off the callback [f] at a valid
    index: [adopt B R hb hc] is the condition under which a candidate with
    amount [R] and hop count [hc] replaces a best with amount [B] and hop
    count [hb]. *)
Definition followsRule (f : Best -> CallState -> nat -> js Best)
    (adopt : Z -> Z -> option Z -> Z -> Prop) (routes : list Route) : Prop :=
  forall cur q i r, routes !! i = Some r ->
    match result q, bestAmount cur with
    | None, _ => f cur q i = Ok cur
    | Some R, None => f cur q i = Ok {| bestRoute := Some r; bestAmount := Some R |}
    | Some R, Some B =>
      (adopt B R (hopCount <$> bestRoute cur) (hopCount r) ->
       f cur q i = Ok {| bestRoute := Some r; bestAmount := Some R |}) /\
      (~ adopt B R (hopCount <$> bestRoute cur) (hopCount r) ->
       f cur q i = Ok cur)
    end.

(** An optional argument or field is present. *)
Definition present {A : Type} (o : option A) : bool :=
  match o with
  | Some _ => true
  | None => false
  end.

(** The quote record [q] with its [valid] flag set to [v]. *)
Definition withValid (v : bool) (q : CallState) : CallState :=
  {| valid := v; result := result q; loading := loading q; syncing := syncing q |}.

(** The selection result of the outcomes without a trade. *)
Definition noTrade (s : V3TradeState) : SelectionResult :=
  {| state := s; trade := None |}.

(** "The trade field is present if and only if the state is VALID or
    SYNCING." *)
Definition tradeIffValidOrSyncing (res : SelectionResult) : Prop :=
  is_Some (trade res) <-> state res = VALID \/ state res = SYNCING.

(** The trade [t] carries the winner [best] of the reduction, the
    direction [direction], and the two amounts: [fixedAmount] is the amount
    given by the caller, and the amount of the winner is wrapped in
    [otherCurrency]. *)
Definition tradeCarries (t : Trade) (best : Best) (direction : TradeType)
    (fixedAmount : CurrencyAmount) (otherCurrency : Currency) : Prop :=
  exists a,
    bestRoute best = Some (route t) /\ bestAmount best = Some a /\
    tradeType t = direction /\
    match direction with
    | EXACT_INPUT =>
      inputAmount t = fixedAmount /\
      outputAmount t = {| currency := otherCurrency; raw := a |}
    | EXACT_OUTPUT =>
      inputAmount t = {| currency := otherCurrency; raw := a |} /\
      outputAmount t = fixedAmount
    end.

(** A fold of [specStep] keeps the route and the amount of the best
    together: both absent or both present. *)
Definition paired (best : Best) : Prop :=
  bestRoute best = None <-> bestAmount best = None.

(** A hook that returns [useMemo(() => f(deps), deps)]. *)
Definition memoised {V : Type} (sameDeps : Deps -> Deps -> bool) (f : Deps -> V)
    (d : Deps) (cell : option (Deps * V)) : V * option (Deps * V) :=
  useMemo sameDeps (fun _ => f d) d cell.

(** A memo cell of a hook that computes [f]: whatever it stores for the
    dependencies [d] is the value of [f] at [d]. *)
Definition cellOf {V : Type} (f : Deps -> V) (cell : option (Deps * V)) : Prop :=
  forall d v, cell = Some (d, v) -> v = f d.

(** The same objects hold the same values. *)
Definition sameDepsSound (sameDeps : Deps -> Deps -> bool) : Prop :=
  forall d d', sameDeps d d' = true -> d = d'.

(** A render with changed dependencies. *)
Definition depsLoading (d : Deps) : Deps :=
  {| depAmount := depAmount d; depCurrency := depCurrency d;
     depQuotesResults := depQuotesResults d; depRoutes := depRoutes d;
     depRoutesLoading := true |}.

Definition depsExample : Deps :=
  {| depAmount := Some (amountOf (TokenCurrency tokenA) 5);
     depCurrency := Some (TokenCurrency tokenB);
     depQuotesResults := [quote 990; quote 1000];
     depRoutes := [hop1; hop3];
     depRoutesLoading := false |}.

(** ** The inputs of the quoter calls

    [quoteExactInInputs] and [quoteExactOutInputs]: one call per route, made
    of the encoded path and of the amount as a hexadecimal string. *)

(** [z.toString(16)] of a [JSBI] integer: lower-case digits, no leading
    zero, a minus sign for a negative number. *)
Definition toString16 (z : Z) : string :=
  match z with
  | Z0 => "0"
  | Zpos p => HexString.Raw.of_pos p ""
  | Zneg p => String "-"%char (HexString.Raw.of_pos p "")
  end.

(** The template literal [`0x${amount.raw.toString(16)}`]. *)
Definition hexAmount (amount : CurrencyAmount) : string :=
  String "0"%char (String "x"%char (toString16 (raw amount))).

Section QuoteInputs.

(** [encodeRouteToPath(route, exactOutput)] of the SDK. *)
Context {Path : Type}.
Variable encodeRouteToPath : Route -> bool -> Path.

Definition quoteExactInInputs (amountIn : option CurrencyAmount) (routes : list Route)
    : list (Path * option string) :=
  (fun route => (encodeRouteToPath route false, hexAmount <$> amountIn)) <$> routes.

Definition quoteExactOutInputs (amountOut : option CurrencyAmount) (routes : list Route)
    : list (Path * option string) :=
  (fun route => (encodeRouteToPath route true, hexAmount <$> amountOut)) <$> routes.

End QuoteInputs.

(** ** Further notions about the reduction *)

(** The reduction reads the [tokenPath] of a route that does not exist: a
    usable quote at an index beyond the route list comes after an earlier
    usable quote. *)
Definition readsMissingRoute (routes : list Route) (quotes : list CallState) : Prop :=
  exists j i q' q,
    (j < i)%nat /\
    quotes !! j = Some q' /\ is_Some (result q') /\
    quotes !! i = Some q /\ is_Some (result q) /\
    routes !! i = None.

(** What the two reduction callbacks have in common: an entry without a
    result is skipped; the first usable entry is stored without reading
    the route; a later usable entry reads the route at its index, throws
    when there is none, and leaves an amount in the accumulator. *)
Definition reducerShape (routes : list Route) (f : Best -> CallState -> nat -> js Best) : Prop :=
  forall acc q i,
    match result q, bestAmount acc with
    | None, _ => f acc q i = Ok acc
    | Some R, None => f acc q i = Ok {| bestRoute := routes !! i; bestAmount := Some R |}
    | Some R, Some B =>
      match routes !! i with
      | None => f acc q i = TypeError
      | Some r => exists acc', f acc q i = Ok acc' /\ is_Some (bestAmount acc')
      end
    end.

(** [best] is absent or is one of the usable pairs. *)
Definition fromPairs (pairs : list (Route * CallState)) (best : Best) : Prop :=
  best = noBest \/
  exists i r a, usableAt pairs i r a /\ best = {| bestRoute := Some r; bestAmount := Some a |}.

(** [best] is the first pair, in list order, whose usable amount is the
    maximum of all usable amounts; it is [noBest] when no pair is usable. *)
Definition firstMaximum (pairs : list (Route * CallState)) (best : Best) : Prop :=
  (best = noBest /\ forall i r a, ~ usableAt pairs i r a) \/
  (exists i r a,
      best = {| bestRoute := Some r; bestAmount := Some a |} /\
      usableAt pairs i r a /\
      (forall j r' a', usableAt pairs j r' a' -> a' <= a) /\
      (forall j r' a', (j < i)%nat -> usableAt pairs j r' a' -> a' < a)).

(** A representation [u/(10000 u)], [u > 0], of one basis point. *)
Definition isOneBips (f : Fraction) : Prop :=
  0 < numerator f /\ denominator f = 10000 * numerator f.

(** A threshold [p/q], [q > 0], with [p/q + 1/10000 <= 1]: at most 99.99%. *)
Definition atMostOneMinusOneBips (f : Fraction) : Prop :=
  0 < denominator f /\ 10000 * numerator f + denominator f <= 10000 * denominator f.

(** The pairs that carry an amount. *)
Definition usablePairs (routes : list Route) (quotes : list CallState)
    : list (Route * CallState) :=
  filter (fun pair => is_Some (result pair.2)) (zip routes quotes).

(** ** The invariants of the SDK on the trade of a winner *)

(** The SDK builds the trade over route [r] with computed amount [a]: the
    amount is at most [MaxUint256], and the currencies of the input amount
    and of the output amount are the input and the output of the route. *)
Definition sdkAccepts (inputCurrency outputCurrency : Currency) (a : Z) (r : Route) : bool :=
  (a <=? MaxUint256) && currencyEquals inputCurrency (input r)
  && currencyEquals outputCurrency (output r).

(** Every quoted amount is at most [MaxUint256] (a [uint256] returned by
    the quoter contract). *)
Definition withinUint256 (quotes : list CallState) : Prop :=
  Forall (fun q => from_option (fun a => a <= MaxUint256) True (result q)) quotes.

(** Every route leads from [inputCurrency] to [outputCurrency], as the
    routes of [useAllV3Routes(inputCurrency, outputCurrency)] do. *)
Definition routesBetween (inputCurrency outputCurrency : Currency)
    (routes : list Route) : Prop :=
  Forall (fun r => currencyEquals inputCurrency (input r) = true /\
                   currencyEquals outputCurrency (output r) = true) routes.

(** The state is one of the two outcomes that carry a trade. *)
Definition validOrSyncing (s : V3TradeState) : bool :=
  match s with
  | VALID | SYNCING => true
  | _ => false
  end.

(** * Properties *)

(** ** The reduction *)

Lemma reduce_from_app {Acc E : Type} (f : Acc -> E -> nat -> js Acc) xs ys i acc :
  reduce_from f (xs ++ ys) i acc =
  (acc' <-js reduce_from f xs i acc ;; reduce_from f ys (i + length xs)%nat acc').
Proof.
  revert i acc. induction xs as [|x xs IH]; intros i acc; simpl.
  - by rewrite Nat.add_0_r.
  - destruct (f acc x i) as [acc'| |]; simpl; [|done..].
    rewrite IH. by replace (S i + length xs)%nat with (i + S (length xs))%nat by lia.
Qed.

(** A callback that skips the entries without a result leaves the
    accumulator alone on a batch without results. *)
Lemma reduce_from_skip {Acc : Type} (f : Acc -> CallState -> nat -> js Acc) qs i acc :
  (forall acc q i, result q = None -> f acc q i = Ok acc) ->
  Forall (fun q => result q = None) qs ->
  reduce_from f qs i acc = Ok acc.
Proof.
  intros Hskip Hqs. revert i. induction Hqs as [|q qs Hq _ IH]; intros i; simpl; [done|].
  rewrite Hskip by done. simpl. apply IH.
Qed.

Lemma hops_condition (r : Route) (br : option Route) :
  truthy ((fun r => length (tokenPath r)) <$> br)
  && hops_lt (length (tokenPath r)) ((fun r => length (tokenPath r)) <$> br) = true
  <-> is_Some (hopCount <$> br) /\ fewerHops (hopCount r) (hopCount <$> br).
Proof.
  unfold fewerHops, hopCount. destruct br as [b|]; simpl.
  - rewrite andb_true_iff, negb_true_iff, Nat.eqb_neq, Nat.ltb_lt. split.
    + intros [_ Hlt]. split; [by eexists|lia].
    + intros [_ Hlt]. split; lia.
  - split; [done|]. by intros [[? ?] _].
Qed.

Lemma exactIn_condition ONE_BIPS THRESHOLD (B R : Z) (r : Route) (br : option Route) :
  let hopsCurrentBest := (fun r => length (tokenPath r)) <$> br in
  (negb (B <? R) && truthy hopsCurrentBest
   && lessThan (subtract (Percent B R) ONE_BIPS) THRESHOLD
   && hops_lt (length (tokenPath r)) hopsCurrentBest)
  || (B <? R)
  = bool_decide (adoptExactIn ONE_BIPS THRESHOLD B R (hopCount <$> br) (hopCount r)).
Proof.
  intros hops. apply eq_true_iff_eq.
  rewrite bool_decide_eq_true, orb_true_iff. unfold adoptExactIn, withinThresholdIn.
  pose proof (hops_condition r br) as Hh. fold hops in Hh.
  rewrite andb_true_iff in Hh.
  rewrite !andb_true_iff, negb_true_iff, Z.ltb_lt, Z.ltb_ge. split.
  - intros [[[[HB Ht] Hw] Hl]|HB]; [right|by left].
    destruct Hh as [Hh _]. destruct (Hh (conj Ht Hl)). repeat split; [lia|done..].
  - intros [HB|(HB & Hk & Hw & Hf)]; [by right|left].
    destruct Hh as [_ Hh]. destruct (Hh (conj Hk Hf)). repeat split; [lia|done..].
Qed.

Lemma exactOut_condition THRESHOLD ONE_HUNDRED (B R : Z) (r : Route) (br : option Route) :
  let hopsCurrentBest := (fun r => length (tokenPath r)) <$> br in
  (truthy hopsCurrentBest && negb (B >? R)
   && greaterThan (subtract ONE_HUNDRED (Percent R B)) THRESHOLD
   && hops_lt (length (tokenPath r)) hopsCurrentBest)
  || (B >? R)
  = bool_decide (adoptExactOut THRESHOLD ONE_HUNDRED B R (hopCount <$> br) (hopCount r)).
Proof.
  intros hops. apply eq_true_iff_eq.
  rewrite bool_decide_eq_true, orb_true_iff. unfold adoptExactOut, withinThresholdOut.
  pose proof (hops_condition r br) as Hh. fold hops in Hh.
  rewrite andb_true_iff in Hh.
  rewrite !andb_true_iff, negb_true_iff, Z.gtb_ltb, Z.ltb_lt, Z.ltb_ge. split.
  - intros [[[[Ht HB] Hw] Hl]|HB]; [right|left; lia].
    destruct Hh as [Hh _]. destruct (Hh (conj Ht Hl)). repeat split; [lia|done..].
  - intros [HB|(HB & Hk & Hw & Hf)]; [right; lia|left].
    destruct Hh as [_ Hh]. destruct (Hh (conj Hk Hf)). repeat split; [done|lia|done..].
Qed.

(** On a valid index the exact-input callback is one step of the fold of
    the specification. *)
Lemma exactInReducer_specStep ONE_BIPS THRESHOLD routes cur q i r :
  routes !! i = Some r ->
  exactInReducer ONE_BIPS THRESHOLD routes cur q i =
  Ok (specStep (fun B R hb hc => bool_decide (adoptExactIn ONE_BIPS THRESHOLD B R hb hc))
        cur (r, q)).
Proof.
  intros Hr. unfold exactInReducer, specStep; simpl.
  destruct (result q) as [R|]; [|done].
  destruct (bestAmount cur) as [B|]; rewrite Hr; [|done].
  rewrite exactIn_condition. by destruct (bool_decide _).
Qed.

Lemma exactOutReducer_specStep THRESHOLD ONE_HUNDRED routes cur q i r :
  routes !! i = Some r ->
  exactOutReducer THRESHOLD ONE_HUNDRED routes cur q i =
  Ok (specStep (fun B R hb hc => bool_decide (adoptExactOut THRESHOLD ONE_HUNDRED B R hb hc))
        cur (r, q)).
Proof.
  intros Hr. unfold exactOutReducer, specStep; simpl.
  destruct (result q) as [R|]; [|done].
  destruct (bestAmount cur) as [B|]; rewrite Hr; [|done].
  rewrite exactOut_condition. by destruct (bool_decide _).
Qed.

(** A reduction whose callback is a step function on every valid index is
    the left fold of that step over the zipped lists. *)
Lemma reduce_from_foldl (f : Best -> CallState -> nat -> js Best)
    (step : Best -> Route * CallState -> Best) (routes : list Route) :
  (forall cur q i r, routes !! i = Some r -> f cur q i = Ok (step cur (r, q))) ->
  forall qs i acc,
    (i + length qs <= length routes)%nat ->
    reduce_from f qs i acc = Ok (foldl step acc (zip (drop i routes) qs)).
Proof.
  intros Hstep qs. induction qs as [|q qs IH]; intros i acc Hlen; simpl in *.
  - by destruct (drop i routes).
  - destruct (lookup_lt_is_Some_2 routes i) as [r Hr]; [lia|].
    rewrite (Hstep _ _ _ _ Hr); simpl. rewrite IH by lia.
    by rewrite (drop_S _ _ _ Hr).
Qed.

Lemma reduce_exactIn_spec ONE_BIPS THRESHOLD routes quotes :
  aligned routes quotes ->
  reduce (exactInReducer ONE_BIPS THRESHOLD routes) quotes noBest =
  Ok (specReduceIn ONE_BIPS THRESHOLD (zip routes quotes)).
Proof.
  intros Hal. unfold reduce, specReduceIn.
  rewrite (reduce_from_foldl _ _ routes (exactInReducer_specStep ONE_BIPS THRESHOLD routes)).
  - done.
  - unfold aligned in Hal. lia.
Qed.

Lemma reduce_exactOut_spec THRESHOLD ONE_HUNDRED routes quotes :
  aligned routes quotes ->
  reduce (exactOutReducer THRESHOLD ONE_HUNDRED routes) quotes noBest =
  Ok (specReduceOut THRESHOLD ONE_HUNDRED (zip routes quotes)).
Proof.
  intros Hal. unfold reduce, specReduceOut.
  rewrite (reduce_from_foldl _ _ routes (exactOutReducer_specStep THRESHOLD ONE_HUNDRED routes)).
  - done.
  - unfold aligned in Hal. lia.
Qed.

Lemma specStep_followsRule f (adopt : Z -> Z -> option Z -> Z -> Prop)
    `{!forall B R hb hc, Decision (adopt B R hb hc)} routes :
  (forall cur q i r, routes !! i = Some r ->
     f cur q i = Ok (specStep (fun B R hb hc => bool_decide (adopt B R hb hc)) cur (r, q))) ->
  followsRule f adopt routes.
Proof.
  intros Hf cur q i r Hr. rewrite (Hf _ _ _ _ Hr). unfold specStep; simpl.
  destruct (result q) as [R|]; [|done].
  destruct (bestAmount cur) as [B|]; [|done].
  split; intros Ha.
  - by rewrite bool_decide_eq_true_2.
  - by rewrite bool_decide_eq_false_2.
Qed.

(** C1. Exact input: on aligned lists the reduction is the left fold of the
    specification over the (route, quote) pairs, started from
    (absent, absent). A pair without an amount is skipped, the first usable
    pair is adopted, and afterwards a candidate with amount R replaces the
    best with amount B exactly when B < R, or B >= R and the best's hop
    count is known and Percent(B, R) - ONE_BIPS is less than the threshold
    and the candidate has strictly fewer hops; otherwise the best is kept. *)
Theorem exactIn_reducer_rule ONE_BIPS THRESHOLD routes quotes :
  aligned routes quotes ->
  reduce (exactInReducer ONE_BIPS THRESHOLD routes) quotes noBest =
    Ok (specReduceIn ONE_BIPS THRESHOLD (zip routes quotes)) /\
  followsRule (exactInReducer ONE_BIPS THRESHOLD routes)
    (adoptExactIn ONE_BIPS THRESHOLD) routes.
Proof.
  intros Hal. split.
  - by apply reduce_exactIn_spec.
  - exact (specStep_followsRule _ (adoptExactIn ONE_BIPS THRESHOLD) routes
             (exactInReducer_specStep ONE_BIPS THRESHOLD routes)).
Qed.

Lemma exactIn_reducer_rule_witness :
  aligned [hop3; hop1] [quote 1000; quote 990] /\
  reduce (exactInReducer oneBips fiftyBips [hop3; hop1]) [quote 1000; quote 990] noBest =
    Ok (specReduceIn oneBips fiftyBips (zip [hop3; hop1] [quote 1000; quote 990])).
Proof.
  split; [reflexivity|].
  apply (exactIn_reducer_rule oneBips fiftyBips [hop3; hop1] [quote 1000; quote 990]).
  reflexivity.
Defined.

(** C2. Exact output: on aligned lists the reduction is the left fold of the
    specification; a candidate with required input R replaces the best with
    required input B exactly when B > R, or B <= R and the best's hop count
    is known and ONE_HUNDRED_PERCENT - Percent(R, B) is greater than the
    threshold and the candidate has strictly fewer hops. *)
Theorem exactOut_reducer_rule THRESHOLD ONE_HUNDRED routes quotes :
  aligned routes quotes ->
  reduce (exactOutReducer THRESHOLD ONE_HUNDRED routes) quotes noBest =
    Ok (specReduceOut THRESHOLD ONE_HUNDRED (zip routes quotes)) /\
  followsRule (exactOutReducer THRESHOLD ONE_HUNDRED routes)
    (adoptExactOut THRESHOLD ONE_HUNDRED) routes.
Proof.
  intros Hal. split.
  - by apply reduce_exactOut_spec.
  - exact (specStep_followsRule _ (adoptExactOut THRESHOLD ONE_HUNDRED) routes
             (exactOutReducer_specStep THRESHOLD ONE_HUNDRED routes)).
Qed.

Lemma exactOut_reducer_rule_witness :
  aligned [hop3; hop1] [quote 1000; quote 990] /\
  reduce (exactOutReducer fiftyBips oneHundredPercent [hop3; hop1])
         [quote 1000; quote 990] noBest =
    Ok (specReduceOut fiftyBips oneHundredPercent (zip [hop3; hop1] [quote 1000; quote 990])).
Proof.
  split; [reflexivity|].
  apply (exactOut_reducer_rule fiftyBips oneHundredPercent [hop3; hop1] [quote 1000; quote 990]).
  reflexivity.
Defined.

(** C8. Exact input, monotone preference: whatever the state of the fold,
    the constants and the two hop counts, a candidate whose quoted output
    strictly exceeds the best's quoted output becomes the new best. *)
Theorem exactIn_monotone_preference ONE_BIPS THRESHOLD routes cur q i r B R :
  routes !! i = Some r ->
  result q = Some R ->
  bestAmount cur = Some B ->
  B < R ->
  exactInReducer ONE_BIPS THRESHOLD routes cur q i =
  Ok {| bestRoute := Some r; bestAmount := Some R |}.
Proof.
  intros Hr Hq HB Hlt. unfold exactInReducer. rewrite Hq, HB, Hr.
  apply Z.ltb_lt in Hlt. rewrite Hlt. by rewrite orb_true_r.
Qed.

Lemma exactIn_monotone_preference_witness :
  exactInReducer oneBips fiftyBips [hop3; hop3']
    {| bestRoute := Some hop3; bestAmount := Some 990 |} (quote 1000) 1 =
  Ok {| bestRoute := Some hop3'; bestAmount := Some 1000 |}.
Proof.
  apply (exactIn_monotone_preference oneBips fiftyBips _ _ _ 1%nat _ 990 1000);
    [reflexivity|reflexivity|reflexivity|lia].
Defined.

(** The two ordering scenarios of the specification, exact input with a
    threshold of 50 basis points. *)
Example exactIn_scenario_better_later :
  reduce (exactInReducer oneBips fiftyBips [hop1; hop3]) [quote 990; quote 1000] noBest =
  Ok {| bestRoute := Some hop3; bestAmount := Some 1000 |}.
Proof. reflexivity. Qed.

Example exactIn_scenario_better_first :
  reduce (exactInReducer oneBips fiftyBips [hop3; hop1]) [quote 1000; quote 990] noBest =
  Ok {| bestRoute := Some hop3; bestAmount := Some 1000 |}.
Proof. reflexivity. Qed.

(** A quote list longer than the route list: the second usable quote reads
    [routes[1].tokenPath] of an undefined route. *)
Example exactIn_unaligned_throws :
  reduce (exactInReducer oneBips fiftyBips [hop1]) [quote 990; quote 1000] noBest = TypeError.
Proof. reflexivity. Qed.

(** ** The selectors *)

Lemma some_Forall_false {A : Type} (p : A -> bool) (xs : list A) :
  Forall (fun x => p x = false) xs -> some p xs = false.
Proof.
  unfold some. induction 1 as [|x xs Hx _ IH]; simpl; [done|]. by rewrite Hx.
Qed.

Lemma some_Exists_true {A : Type} (p : A -> bool) (xs : list A) :
  Exists (fun x => p x = true) xs -> some p xs = true.
Proof.
  unfold some. induction 1 as [x xs Hx|x xs _ IH]; simpl.
  - by rewrite Hx.
  - rewrite IH. apply orb_true_r.
Qed.

Lemma reduce_from_fmap {Acc E : Type} (f : Acc -> E -> nat -> js Acc) (g : E -> E) xs i acc :
  (forall acc x i, f acc (g x) i = f acc x i) ->
  reduce_from f (g <$> xs) i acc = reduce_from f xs i acc.
Proof.
  intros Hg. revert i acc. induction xs as [|x xs IH]; intros i acc; simpl; [done|].
  rewrite Hg. destruct (f acc x i); simpl; [apply IH|done..].
Qed.

Lemma specStep_paired adopt best pair : paired best -> paired (specStep adopt best pair).
Proof.
  unfold specStep. intros Hp.
  destruct (result pair.2); [|done].
  destruct (bestAmount best); [|done].
  by destruct (adopt _ _ _ _).
Qed.

Lemma foldl_specStep_paired adopt pairs best :
  paired best -> paired (foldl (specStep adopt) best pairs).
Proof.
  revert best. induction pairs as [|p pairs IH]; intros best Hp; simpl; [done|].
  by apply IH, specStep_paired.
Qed.

Lemma exactInReducer_withValid ONE_BIPS THRESHOLD routes v acc q i :
  exactInReducer ONE_BIPS THRESHOLD routes acc (withValid v q) i =
  exactInReducer ONE_BIPS THRESHOLD routes acc q i.
Proof. reflexivity. Qed.

Lemma some_withValid (p : CallState -> bool) v quotes :
  (forall q, p (withValid v q) = p q) ->
  some p (withValid v <$> quotes) = some p quotes.
Proof.
  intros Hp. unfold some. induction quotes as [|q quotes IH]; csimpl; [done|].
  by rewrite Hp, IH.
Qed.

(** C4. Exact output: a quote with [valid = false] makes the result INVALID
    without a trade, whatever the loading flags are, since the check comes
    with the missing-argument check and before the loading check. Exact
    input never reads the [valid] flags: changing them changes nothing. *)
Theorem exactOut_invalid_quote ONE_BIPS THRESHOLD ONE_HUNDRED
    amount currency routes routesLoading quotes :
  (Exists (fun q => valid q = false) quotes ->
   bestV3TradeExactOut THRESHOLD ONE_HUNDRED currency amount routes routesLoading quotes
     = Ok (noTrade INVALID)) /\
  (forall v,
   bestV3TradeExactIn ONE_BIPS THRESHOLD amount currency routes routesLoading
     (withValid v <$> quotes)
   = bestV3TradeExactIn ONE_BIPS THRESHOLD amount currency routes routesLoading quotes).
Proof.
  split.
  - intros Hinv. unfold bestV3TradeExactOut.
    destruct amount; [|done]. destruct currency; [|done].
    rewrite (some_Exists_true (fun q => negb (valid q)) quotes); [done|].
    eapply Exists_impl; [exact Hinv|]. by intros q ->.
  - intros v. unfold bestV3TradeExactIn.
    destruct amount; [|done]. destruct currency; [|done].
    rewrite !some_withValid by done.
    unfold reduce. by rewrite reduce_from_fmap by apply exactInReducer_withValid.
Qed.

Lemma exactOut_invalid_quote_witness :
  bestV3TradeExactOut fiftyBips oneHundredPercent (Some ETHER)
    (Some (amountOf (TokenCurrency tokenB) 7)) [hop1; hop3] false [quoteInvalid; quoteLoading]
  = Ok (noTrade INVALID).
Proof.
  apply (exactOut_invalid_quote oneBips fiftyBips oneHundredPercent
           (Some (amountOf (TokenCurrency tokenB) 7)) (Some ETHER) [hop1; hop3] false
           [quoteInvalid; quoteLoading]).
  apply Exists_cons_hd. reflexivity.
Defined.

(** The same batch under exact input is LOADING. *)
Example exactIn_ignores_valid :
  bestV3TradeExactIn oneBips fiftyBips (Some (amountOf (TokenCurrency tokenB) 7)) (Some ETHER)
    [hop1; hop3] false [quoteInvalid; quoteLoading]
  = Ok (noTrade LOADING).
Proof. reflexivity. Qed.

(** C7. With both arguments present, nothing loading (and, for exact
    output, nothing invalid) and no quote carrying an amount, either
    selector returns NO_ROUTE_FOUND without a trade; the entries without an
    amount are skipped. The empty route list with the empty quote list is
    such a call. *)
Theorem no_usable_amount_no_route ONE_BIPS THRESHOLD ONE_HUNDRED
    (amount : CurrencyAmount) (other : Currency) routes quotes :
  (Forall (fun q => loading q = false) quotes ->
   Forall (fun q => result q = None) quotes ->
   bestV3TradeExactIn ONE_BIPS THRESHOLD (Some amount) (Some other) routes false quotes
     = Ok (noTrade NO_ROUTE_FOUND) /\
   (Forall (fun q => valid q = true) quotes ->
    bestV3TradeExactOut THRESHOLD ONE_HUNDRED (Some other) (Some amount) routes false quotes
      = Ok (noTrade NO_ROUTE_FOUND))) /\
  bestV3TradeExactIn ONE_BIPS THRESHOLD (Some amount) (Some other) [] false []
    = Ok (noTrade NO_ROUTE_FOUND) /\
  bestV3TradeExactOut THRESHOLD ONE_HUNDRED (Some other) (Some amount) [] false []
    = Ok (noTrade NO_ROUTE_FOUND).
Proof.
  split; [|by split].
  intros Hload Hres. split.
  - unfold bestV3TradeExactIn. rewrite (some_Forall_false _ _ Hload); simpl.
    unfold reduce. rewrite reduce_from_skip; [done| |done].
    intros acc q i Hq. unfold exactInReducer. by rewrite Hq.
  - intros Hvalid. unfold bestV3TradeExactOut.
    rewrite (some_Forall_false (fun q => negb (valid q)) quotes).
    2:{ eapply Forall_impl; [exact Hvalid|]. by intros q ->. }
    rewrite (some_Forall_false _ _ Hload); simpl.
    unfold reduce. rewrite reduce_from_skip; [done| |done].
    intros acc q i Hq. unfold exactOutReducer. by rewrite Hq.
Qed.

Lemma no_usable_amount_no_route_witness :
  bestV3TradeExactIn oneBips fiftyBips (Some (amountOf ETHER 5))
    (Some (TokenCurrency tokenB)) [hop1; hop3] false [quoteEmpty; quoteEmpty]
    = Ok (noTrade NO_ROUTE_FOUND) /\
  bestV3TradeExactOut fiftyBips oneHundredPercent (Some (TokenCurrency tokenB))
    (Some (amountOf ETHER 5)) [hop1; hop3] false [quoteEmpty; quoteEmpty]
    = Ok (noTrade NO_ROUTE_FOUND).
Proof.
  destruct (no_usable_amount_no_route oneBips fiftyBips oneHundredPercent
              (amountOf ETHER 5) (TokenCurrency tokenB) [hop1; hop3]
              [quoteEmpty; quoteEmpty]) as [Hsettled _].
  destruct Hsettled as [Hin Hout].
  - repeat constructor.
  - repeat constructor.
  - split; [exact Hin|]. apply Hout. repeat constructor.
Defined.

(** ** The fewer-hops branch of exact output *)

(** C5. Exact output with a threshold of 50 basis points: the best requires
    1000 on a three-hop route and the candidate requires 1001 on a one-hop
    route, a shortfall of 10 basis points, within the threshold. The
    reducer keeps the three-hop route: the candidate is not preferred. *)
Theorem exactOut_fewer_hops_within_threshold_rejected :
  lessThan (Percent (1001 - 1000) 1000) fiftyBips = true /\
  exactOutReducer fiftyBips oneHundredPercent [hop3; hop1]
    {| bestRoute := Some hop3; bestAmount := Some 1000 |} (quote 1001) 1
  = Ok {| bestRoute := Some hop3; bestAmount := Some 1000 |} /\
  reduce (exactOutReducer fiftyBips oneHundredPercent [hop3; hop1])
    [quote 1000; quote 1001] noBest
  = Ok {| bestRoute := Some hop3; bestAmount := Some 1000 |}.
Proof. repeat split. Qed.

Lemma exactOut_difference_not_positive THRESHOLD ONE_HUNDRED B R :
  nonNegativeFraction THRESHOLD -> isOneHundredPercent ONE_HUNDRED ->
  0 <= B -> B <= R ->
  let difference := subtract ONE_HUNDRED (Percent R B) in
  numerator difference <= 0 /\ 0 <= denominator difference /\
  greaterThan difference THRESHOLD = false.
Proof.
  intros [Hp Hq] [Hn Hnn] HB HR. unfold subtract, greaterThan; simpl.
  destruct ONE_HUNDRED as [n d], THRESHOLD as [p q]; simpl in *. subst n.
  destruct (d =? B) eqn:Hd; simpl.
  - apply Z.eqb_eq in Hd. subst d. repeat split; [lia..|].
    rewrite Z.gtb_ltb. apply Z.ltb_ge. nia.
  - assert (d * B - R * d <= 0) by nia.
    assert (0 <= d * B) by nia.
    repeat split; [done..|].
    rewrite Z.gtb_ltb. apply Z.ltb_ge.
    assert ((d * B - R * d) * q <= 0) by nia.
    assert (0 <= p * (d * B)) by nia. lia.
Qed.

Lemma adoptExactOut_iff THRESHOLD ONE_HUNDRED B R hb hc :
  nonNegativeFraction THRESHOLD -> isOneHundredPercent ONE_HUNDRED ->
  0 <= B ->
  adoptExactOut THRESHOLD ONE_HUNDRED B R hb hc <-> R < B.
Proof.
  intros HT HH HB. unfold adoptExactOut, withinThresholdOut. split.
  - intros [Hgt|(Hle & _ & Hw & _)]; [lia|].
    destruct (exactOut_difference_not_positive _ _ B R HT HH HB Hle) as (_ & _ & Hf).
    simpl in Hf. congruence.
  - intros Hlt. left. lia.
Qed.

(** That candidate is rejected under every non-negative threshold; only
    a negative threshold lets the branch fire. *)
Lemma exactOut_fewer_hops_never_preferred THRESHOLD :
  nonNegativeFraction THRESHOLD ->
  exactOutReducer THRESHOLD oneHundredPercent [hop3; hop1]
    {| bestRoute := Some hop3; bestAmount := Some 1000 |} (quote 1001) 1
  = Ok {| bestRoute := Some hop3; bestAmount := Some 1000 |}.
Proof.
  intros HT.
  rewrite (exactOutReducer_specStep _ _ _ _ _ _ hop1) by reflexivity.
  unfold specStep; simpl. rewrite bool_decide_eq_false_2; [done|].
  rewrite adoptExactOut_iff; [lia|done| |lia].
  unfold isOneHundredPercent; simpl. lia.
Qed.

Example exactOut_negative_threshold_prefers :
  exactOutReducer (Percent (-1) 100) oneHundredPercent [hop3; hop1]
    {| bestRoute := Some hop3; bestAmount := Some 1000 |} (quote 1001) 1
  = Ok {| bestRoute := Some hop1; bestAmount := Some 1001 |}.
Proof. reflexivity. Qed.

Lemma usableAt_lt pairs i r a : usableAt pairs i r a -> (i < length pairs)%nat.
Proof. intros (q & Hq & _). by eapply lookup_lt_Some. Qed.

Lemma usableAt_snoc pairs r q j r' a' :
  usableAt (pairs ++ [(r, q)]) j r' a' <->
  usableAt pairs j r' a' \/ (j = length pairs /\ r' = r /\ result q = Some a').
Proof.
  unfold usableAt. split.
  - intros (q' & Hl & Hres). apply lookup_snoc_Some in Hl as [[_ Hl]|[-> [= -> ->]]].
    + left. by exists q'.
    + by right.
  - intros [(q' & Hl & Hres)|(-> & -> & Hres)].
    + exists q'. split; [|done]. apply lookup_snoc_Some. left.
      split; [by eapply lookup_lt_Some|done].
    + exists q. split; [|done]. apply lookup_snoc_Some. by right.
Qed.

(** A step that adopts exactly the strictly smaller amounts keeps the best
    at the first minimum of the pairs seen so far. *)
Lemma specStep_firstMinimum adopt pairs best r q :
  (forall B R hb hc, 0 <= B -> adopt B R hb hc = bool_decide (R < B)) ->
  (forall i r a, usableAt pairs i r a -> 0 <= a) ->
  firstMinimum pairs best ->
  firstMinimum (pairs ++ [(r, q)]) (specStep adopt best (r, q)).
Proof.
  intros Hadopt Hnn Hmin. unfold specStep; simpl.
  destruct (result q) as [R|] eqn:HR.
  - destruct Hmin as [[-> Hnone]|(i & r0 & a & -> & Hi & Hall & Hbefore)]; simpl.
    + right. exists (length pairs), r, R. split; [done|]. split; [|split].
      * apply usableAt_snoc. by right.
      * intros j r' a' [Hu|(_ & _ & Ha)]%usableAt_snoc; [by destruct (Hnone _ _ _ Hu)|].
        assert (a' = R) by congruence. lia.
      * intros j r' a' Hj [Hu|(-> & _)]%usableAt_snoc; [by destruct (Hnone _ _ _ Hu)|lia].
    + rewrite Hadopt by eauto. right. case_bool_decide as Hlt.
      * exists (length pairs), r, R. split; [done|]. split; [|split].
        -- apply usableAt_snoc. by right.
        -- intros j r' a' [Hu|(_ & _ & Ha)]%usableAt_snoc.
           ++ specialize (Hall _ _ _ Hu). lia.
           ++ assert (a' = R) by congruence. lia.
        -- intros j r' a' Hj [Hu|(-> & _)]%usableAt_snoc; [|lia].
           specialize (Hall _ _ _ Hu). lia.
      * exists i, r0, a. split; [done|]. split; [|split].
        -- apply usableAt_snoc. by left.
        -- intros j r' a' [Hu|(_ & _ & Ha)]%usableAt_snoc; [by eapply Hall|].
           assert (a' = R) by congruence. lia.
        -- intros j r' a' Hj [Hu|(-> & _)]%usableAt_snoc; [by eapply Hbefore|].
           apply usableAt_lt in Hi. lia.
  - destruct Hmin as [[-> Hnone]|(i & r0 & a & -> & Hi & Hall & Hbefore)].
    + left. split; [done|]. intros j r' a' [Hu|(_ & _ & Ha)]%usableAt_snoc.
      * by destruct (Hnone _ _ _ Hu).
      * congruence.
    + right. exists i, r0, a. split; [done|]. split; [|split].
      * apply usableAt_snoc. by left.
      * intros j r' a' [Hu|(_ & _ & Ha)]%usableAt_snoc; [by eapply Hall|congruence].
      * intros j r' a' Hj [Hu|(_ & _ & Ha)]%usableAt_snoc; [by eapply Hbefore|congruence].
Qed.

Lemma foldl_specStep_firstMinimum adopt pairs :
  (forall B R hb hc, 0 <= B -> adopt B R hb hc = bool_decide (R < B)) ->
  (forall i r a, usableAt pairs i r a -> 0 <= a) ->
  firstMinimum pairs (foldl (specStep adopt) noBest pairs).
Proof.
  intros Hadopt. induction pairs as [|[r q] pairs IH] using rev_ind; intros Hnn.
  - left. split; [done|]. intros i r a (q & Hq & _). by rewrite lookup_nil in Hq.
  - rewrite foldl_app; simpl. apply specStep_firstMinimum; [done| |].
    + intros i r' a Hu. eapply Hnn, usableAt_snoc. by left.
    + apply IH. intros i r' a Hu. eapply Hnn, usableAt_snoc. by left.
Qed.

Lemma usableAt_zip_nonneg routes quotes i r a :
  nonNegativeQuotes quotes -> usableAt (zip routes quotes) i r a -> 0 <= a.
Proof.
  intros Hnn (q & Hq & Hres). unfold nonNegativeQuotes in Hnn.
  rewrite Forall_lookup in Hnn.
  apply lookup_zip_with_Some in Hq as (r' & q' & [= <- <-] & _ & Hq').
  specialize (Hnn _ _ Hq'). by rewrite Hres in Hnn.
Qed.

(** C6. With a non-negative threshold the fewer-hops branch of exact output
    never fires: when the candidate's input R is at least the best's input
    B, ONE_HUNDRED_PERCENT - Percent(R, B) is not positive and so not
    greater than the threshold. The reduction therefore returns the first
    pair, in list order, whose amount is the minimum of the usable amounts,
    whatever the hop counts. *)
Theorem exactOut_first_minimum THRESHOLD ONE_HUNDRED :
  nonNegativeFraction THRESHOLD -> isOneHundredPercent ONE_HUNDRED ->
  (forall B R, 0 <= B -> B <= R ->
     let difference := subtract ONE_HUNDRED (Percent R B) in
     numerator difference <= 0 /\ 0 <= denominator difference /\
     greaterThan difference THRESHOLD = false) /\
  (forall routes quotes,
     aligned routes quotes -> nonNegativeQuotes quotes ->
     exists best,
       reduce (exactOutReducer THRESHOLD ONE_HUNDRED routes) quotes noBest = Ok best /\
       firstMinimum (zip routes quotes) best).
Proof.
  intros HT HH. split.
  - intros B R. by apply exactOut_difference_not_positive.
  - intros routes quotes Hal Hnn. eexists. split; [by apply reduce_exactOut_spec|].
    apply foldl_specStep_firstMinimum.
    + intros B R hb hc HB. apply bool_decide_ext. by apply adoptExactOut_iff.
    + intros i r a. by apply usableAt_zip_nonneg.
Qed.

Lemma exactOut_first_minimum_witness :
  exists best,
    reduce (exactOutReducer fiftyBips oneHundredPercent [hop3; hop1; hop1])
           [quote 1000; quote 1001; quote 1000] noBest = Ok best /\
    firstMinimum (zip [hop3; hop1; hop1] [quote 1000; quote 1001; quote 1000]) best.
Proof.
  apply (exactOut_first_minimum fiftyBips oneHundredPercent).
  - unfold nonNegativeFraction; simpl. lia.
  - unfold isOneHundredPercent; simpl. lia.
  - reflexivity.
  - repeat constructor; simpl; lia.
Defined.

(** ** The memoised hooks *)

Section MemoisedHook.

Context {V : Type}.
Variable sameDeps : Deps -> Deps -> bool.
Hypothesis sameDeps_sound : sameDepsSound sameDeps.
Variable f : Deps -> V.

Lemma useMemo_value d cell : cellOf f cell -> (memoised sameDeps f d cell).1 = f d.
Proof.
  unfold memoised, useMemo. intros Hcell. destruct cell as [[d' v]|]; [|done].
  destruct (sameDeps d' d) eqn:Hsame; [|done]. simpl.
  apply sameDeps_sound in Hsame as <-. by apply Hcell.
Qed.

Lemma useMemo_cell d cell : cellOf f cell -> cellOf f (memoised sameDeps f d cell).2.
Proof.
  unfold memoised, useMemo. intros Hcell. destruct cell as [[d' v]|].
  - destruct (sameDeps d' d); [done|]. by intros ? ? [= <- <-].
  - by intros ? ? [= <- <-].
Qed.

Lemma afterRenders_cell history : cellOf f (afterRenders (memoised sameDeps f) history).
Proof.
  unfold afterRenders. induction history as [|d history IH] using rev_ind.
  - by intros ? ?.
  - rewrite foldl_app. simpl. by apply useMemo_cell.
Qed.

Lemma hook_value history d : (memoised sameDeps f d (afterRenders (memoised sameDeps f) history)).1 = f d.
Proof. apply useMemo_value, afterRenders_cell. Qed.

End MemoisedHook.

(** C10. Determinism: after any two sequences of earlier renders, two
    invocations of a selector with the same inputs return the same result,
    namely the value of the pure selection function at those inputs; the
    memo cell of the hook never changes a result. *)
Theorem selection_deterministic ONE_BIPS THRESHOLD ONE_HUNDRED sameDeps :
  sameDepsSound sameDeps ->
  forall history1 history2 d,
    let hookIn := useBestV3TradeExactIn ONE_BIPS THRESHOLD sameDeps in
    let hookOut := useBestV3TradeExactOut THRESHOLD ONE_HUNDRED sameDeps in
    (hookIn d (afterRenders hookIn history1)).1
      = (hookIn d (afterRenders hookIn history2)).1 /\
    (hookIn d (afterRenders hookIn history1)).1
      = bestV3TradeExactIn ONE_BIPS THRESHOLD (depAmount d) (depCurrency d)
          (depRoutes d) (depRoutesLoading d) (depQuotesResults d) /\
    (hookOut d (afterRenders hookOut history1)).1
      = (hookOut d (afterRenders hookOut history2)).1 /\
    (hookOut d (afterRenders hookOut history1)).1
      = bestV3TradeExactOut THRESHOLD ONE_HUNDRED (depCurrency d) (depAmount d)
          (depRoutes d) (depRoutesLoading d) (depQuotesResults d).
Proof.
  intros Hsound history1 history2 d hookIn hookOut.
  pose proof (hook_value sameDeps Hsound
    (fun d => bestV3TradeExactIn ONE_BIPS THRESHOLD (depAmount d) (depCurrency d)
                (depRoutes d) (depRoutesLoading d) (depQuotesResults d))) as Hin.
  pose proof (hook_value sameDeps Hsound
    (fun d => bestV3TradeExactOut THRESHOLD ONE_HUNDRED (depCurrency d) (depAmount d)
                (depRoutes d) (depRoutesLoading d) (depQuotesResults d))) as Hout.
  repeat split.
  - etransitivity; [exact (Hin history1 d)|symmetry; exact (Hin history2 d)].
  - exact (Hin history1 d).
  - etransitivity; [exact (Hout history1 d)|symmetry; exact (Hout history2 d)].
  - exact (Hout history1 d).
Qed.

Lemma selection_deterministic_witness :
  let hookIn :=
    useBestV3TradeExactIn oneBips fiftyBips (fun d d' => bool_decide (d = d')) in
  (hookIn depsExample (afterRenders hookIn [])).1
  = (hookIn depsExample (afterRenders hookIn [depsExample; depsLoading depsExample])).1.
Proof.
  intros hookIn.
  assert (sameDepsSound (fun d d' => bool_decide (d = d'))) as Hsound.
  { intros d d' Hd. by apply bool_decide_eq_true in Hd. }
  exact (proj1 (selection_deterministic oneBips fiftyBips oneHundredPercent
                  (fun d d' => bool_decide (d = d')) Hsound
                  [] [depsExample; depsLoading depsExample] depsExample)).
Defined.

(** The renders of the witness: the second render changes a dependency, so
    the third one recomputes. *)
Example hook_recomputes :
  let hookIn :=
    useBestV3TradeExactIn oneBips fiftyBips (fun d d' => bool_decide (d = d')) in
  (hookIn (depsLoading depsExample) (afterRenders hookIn [depsExample])).1
    = Ok (noTrade LOADING) /\
  (hookIn depsExample (afterRenders hookIn [depsExample; depsLoading depsExample])).1
    = Ok {| state := VALID;
            trade := Some (mkTrade hop3 EXACT_INPUT (amountOf (TokenCurrency tokenA) 5)
                             (amountOf (TokenCurrency tokenB) 1000)) |}.
Proof. vm_compute. split; reflexivity. Qed.

(** ** When the reduction throws *)

Lemma exactInReducer_shape ONE_BIPS THRESHOLD routes :
  reducerShape routes (exactInReducer ONE_BIPS THRESHOLD routes).
Proof.
  intros acc q i. unfold exactInReducer.
  destruct (result q) as [R|]; [|done].
  destruct (bestAmount acc) as [B|] eqn:HB; [|done].
  destruct (routes !! i) as [r|]; [|done].
  destruct (_ || _); eexists; (split; [done|]); simpl; [done|by rewrite HB].
Qed.

Lemma exactOutReducer_shape THRESHOLD ONE_HUNDRED routes :
  reducerShape routes (exactOutReducer THRESHOLD ONE_HUNDRED routes).
Proof.
  intros acc q i. unfold exactOutReducer.
  destruct (result q) as [R|]; [|done].
  destruct (bestAmount acc) as [B|] eqn:HB; [|done].
  destruct (routes !! i) as [r|]; [|done].
  destruct (_ || _); eexists; (split; [done|]); simpl; [done|by rewrite HB].
Qed.

(** The reduction from index [i] and accumulator [acc] throws exactly when
    some usable entry has no route and is not the first usable entry. *)
Lemma reduce_from_throws routes f :
  reducerShape routes f ->
  forall qs i acc,
    reduce_from f qs i acc = TypeError <->
    exists k q,
      qs !! k = Some q /\ is_Some (result q) /\ routes !! (i + k)%nat = None /\
      (is_Some (bestAmount acc) \/
       exists j q', (j < k)%nat /\ qs !! j = Some q' /\ is_Some (result q')).
Proof.
  intros Hf qs. induction qs as [|q qs IH]; intros i acc; simpl.
  - split; [done|]. by intros (k & q & Hk & _).
  - specialize (Hf acc q i).
    destruct (result q) as [R|] eqn:HR.
    + destruct (bestAmount acc) as [B|] eqn:HB.
      * destruct (routes !! i) as [r|] eqn:Hr.
        -- destruct Hf as (acc' & -> & Hacc'). simpl. rewrite IH. split.
           ++ intros (k & q0 & Hk & Hq0 & Hrk & _). exists (S k), q0.
              repeat split; [done..| |by left].
              by replace (i + S k)%nat with (S i + k)%nat by lia.
           ++ intros (k & q0 & Hk & Hq0 & Hrk & _). destruct k as [|k].
              { rewrite Nat.add_0_r in Hrk. congruence. }
              exists k, q0. repeat split; [done..| |by left].
              by replace (S i + k)%nat with (i + S k)%nat by lia.
        -- rewrite Hf. split; [intros _|done]. exists 0%nat, q.
           rewrite Nat.add_0_r, HR. repeat split; [by eexists|done|by left].
      * rewrite Hf. simpl. rewrite IH. split.
        -- intros (k & q0 & Hk & Hq0 & Hrk & _). exists (S k), q0.
           repeat split; [done..| |].
           ++ by replace (i + S k)%nat with (S i + k)%nat by lia.
           ++ right. exists 0%nat, q. rewrite HR. repeat split; [lia|by eexists].
        -- intros (k & q0 & Hk & Hq0 & Hrk & Hprev). destruct k as [|k].
           { destruct Hprev as [[? ?]|(j & ? & ? & _)]; [done|lia]. }
           exists k, q0. repeat split; [done..| |by left].
           by replace (S i + k)%nat with (i + S k)%nat by lia.
    + rewrite Hf. simpl. rewrite IH. split.
      * intros (k & q0 & Hk & Hq0 & Hrk & Hprev). exists (S k), q0.
        repeat split; [done..| |].
        -- by replace (i + S k)%nat with (S i + k)%nat by lia.
        -- destruct Hprev as [?|(j & q' & Hj & Hq' & Hu)]; [by left|right].
           exists (S j), q'. repeat split; [lia|done..].
      * intros (k & q0 & Hk & Hq0 & Hrk & Hprev). destruct k as [|k].
        { simpl in Hk. injection Hk as <-. rewrite HR in Hq0. by destruct Hq0. }
        exists k, q0. repeat split; [done..| |].
        -- by replace (S i + k)%nat with (i + S k)%nat by lia.
        -- destruct Hprev as [?|(j & q' & Hj & Hq' & Hu)]; [by left|right].
           destruct j as [|j].
           { simpl in Hq'. injection Hq' as <-. rewrite HR in Hu. by destruct Hu. }
           exists j, q'. repeat split; [lia|done..].
Qed.

Lemma reduce_throws routes f quotes :
  reducerShape routes f ->
  reduce f quotes noBest = TypeError <-> readsMissingRoute routes quotes.
Proof.
  intros Hf. unfold reduce, readsMissingRoute.
  rewrite (reduce_from_throws routes f Hf). simpl. split.
  - intros (i & q & Hi & Hq & Hr & [[? ?]|(j & q' & Hj & Hq' & Hu)]); [done|].
    by exists j, i, q', q.
  - intros (j & i & q' & q & Hj & Hq' & Hu & Hi & Hq & Hr).
    exists i, q. repeat split; [done..|]. right. by exists j, q'.
Qed.

Lemma readsMissingRoute_length routes quotes :
  readsMissingRoute routes quotes -> (length routes < length quotes)%nat.
Proof.
  intros (j & i & q' & q & _ & _ & _ & Hi & _ & Hr).
  apply lookup_lt_Some in Hi. apply lookup_ge_None in Hr. lia.
Qed.

(** The reductions of both hooks throw a [TypeError] exactly when a usable
    quote at an index beyond the route list follows an earlier usable
    quote. *)
Theorem reductions_throw_iff ONE_BIPS THRESHOLD ONE_HUNDRED routes quotes :
  (reduce (exactInReducer ONE_BIPS THRESHOLD routes) quotes noBest = TypeError
   <-> readsMissingRoute routes quotes) /\
  (reduce (exactOutReducer THRESHOLD ONE_HUNDRED routes) quotes noBest = TypeError
   <-> readsMissingRoute routes quotes).
Proof.
  split; apply reduce_throws;
    [apply exactInReducer_shape|apply exactOutReducer_shape].
Qed.

Lemma some_false_iff {A : Type} (p : A -> bool) (xs : list A) :
  some p xs = false <-> Forall (fun x => p x = false) xs.
Proof.
  split; [|apply some_Forall_false].
  unfold some. induction xs as [|x xs IH]; simpl; [by constructor|].
  intros [Hx Hxs]%orb_false_iff. constructor; [done|by apply IH].
Qed.

(** ** The winner is one of the usable pairs *)

Lemma usableAt_zip routes quotes i r a :
  usableAt (zip routes quotes) i r a <->
  routes !! i = Some r /\ exists q, quotes !! i = Some q /\ result q = Some a.
Proof.
  unfold usableAt. split.
  - intros (q & Hq & Hres).
    apply lookup_zip_with_Some in Hq as (r' & q' & [= <- <-] & Hr & Hq'). eauto.
  - intros (Hr & q & Hq & Hres). exists q. split; [|done].
    apply lookup_zip_with_Some. by exists r, q.
Qed.

Lemma specStep_fromPairs adopt pairs best r q :
  fromPairs pairs best -> fromPairs (pairs ++ [(r, q)]) (specStep adopt best (r, q)).
Proof.
  intros Hbest.
  assert (fromPairs (pairs ++ [(r, q)]) best) as Hkeep.
  { destruct Hbest as [->|(i & r0 & a & Hu & ->)]; [by left|right].
    exists i, r0, a. split; [|done]. apply usableAt_snoc. by left. }
  unfold specStep; simpl. destruct (result q) as [R|] eqn:HR; [|done].
  assert (fromPairs (pairs ++ [(r, q)]) {| bestRoute := Some r; bestAmount := Some R |})
    as Hnew.
  { right. exists (length pairs), r, R. split; [|done]. apply usableAt_snoc. by right. }
  destruct (bestAmount best); [|done]. by destruct (adopt _ _ _ _).
Qed.

Lemma foldl_specStep_fromPairs adopt pairs :
  fromPairs pairs (foldl (specStep adopt) noBest pairs).
Proof.
  induction pairs as [|[r q] pairs IH] using rev_ind; [by left|].
  rewrite foldl_app. by apply specStep_fromPairs.
Qed.

Lemma specStep_amount adopt best pair :
  is_Some (bestAmount (specStep adopt best pair)) <->
  is_Some (bestAmount best) \/ is_Some (result pair.2).
Proof.
  unfold specStep. destruct (result pair.2) as [R|].
  - destruct (bestAmount best) as [B|] eqn:HB; simpl.
    + destruct (adopt _ _ _ _); simpl; [|rewrite HB]; split; eauto.
    + split; eauto.
  - split; [by left|]. by intros [?|[? ?]].
Qed.

Lemma foldl_specStep_amount adopt pairs :
  is_Some (bestAmount (foldl (specStep adopt) noBest pairs)) <->
  Exists (fun pair => is_Some (result pair.2)) pairs.
Proof.
  induction pairs as [|p pairs IH] using rev_ind; simpl.
  - rewrite Exists_nil. split; [by intros [? ?]|done].
  - rewrite foldl_app, Exists_app, Exists_cons, Exists_nil. simpl.
    rewrite specStep_amount, IH. tauto.
Qed.

Lemma Exists_zip_usable routes quotes :
  aligned routes quotes ->
  Exists (fun pair : Route * CallState => is_Some (result pair.2)) (zip routes quotes) <->
  Exists (fun q => is_Some (result q)) quotes.
Proof.
  unfold aligned. revert quotes. induction routes as [|r routes IH]; intros [|q quotes] Hlen;
    simpl in *; try done.
  - by rewrite !Exists_nil.
  - rewrite !Exists_cons, IH by lia. done.
Qed.

(** The winner of a fold of [specStep], as a pair of [fromPairs] with both
    fields present. *)
Lemma foldl_specStep_winner adopt pairs :
  let best := foldl (specStep adopt) noBest pairs in
  match bestRoute best, bestAmount best with
  | Some r, Some a => exists i, usableAt pairs i r a
  | None, None => Forall (fun pair => result pair.2 = None) pairs
  | _, _ => False
  end.
Proof.
  intros best.
  pose proof (foldl_specStep_fromPairs adopt pairs) as Hfrom.
  pose proof (foldl_specStep_amount adopt pairs) as Hamount.
  fold best in Hfrom, Hamount.
  destruct Hfrom as [Hb|(i & r & a & Hu & Hb)]; rewrite Hb in *; simpl in *.
  - apply Forall_forall. intros pair Hin.
    destruct (result pair.2) eqn:Hres; [|done].
    destruct Hamount as [_ [? ?]]; [|done].
    apply Exists_exists. exists pair. rewrite Hres. split; [done|by eexists].
  - by exists i.
Qed.

(** ** The selectors and the invariants of the SDK *)

Lemma reduce_from_no_invariant routes f :
  reducerShape routes f ->
  forall qs i acc, reduce_from f qs i acc <> InvariantError.
Proof.
  intros Hf qs. induction qs as [|q qs IH]; intros i acc; simpl; [done|].
  specialize (Hf acc q i).
  destruct (result q) as [R|].
  - destruct (bestAmount acc) as [B|].
    + destruct (routes !! i) as [r|].
      * destruct Hf as (acc' & -> & _). simpl. apply IH.
      * by rewrite Hf.
    + rewrite Hf. simpl. apply IH.
  - rewrite Hf. simpl. apply IH.
Qed.

(** The two constructions of a trade: they return the trade when the SDK
    accepts the winner and throw otherwise. *)
Lemma build_trade_exactIn (s : V3TradeState) amountIn currencyOut r a :
  (outputAmount <-js
     match currencyOut with
     | TokenCurrency t => TokenAmount t a
     | ETHER => CurrencyAmount_ether a
     end ;;
   trade <-js createUncheckedTrade r EXACT_INPUT amountIn outputAmount ;;
   Ok {| state := s; trade := Some trade |}) =
  if sdkAccepts (currency amountIn) currencyOut a r
  then Ok {| state := s;
             trade := Some (mkTrade r EXACT_INPUT amountIn
                              {| currency := currencyOut; raw := a |}) |}
  else InvariantError.
Proof.
  unfold sdkAccepts, TokenAmount, CurrencyAmount_ether, newCurrencyAmount,
    createUncheckedTrade.
  destruct currencyOut; destruct (a <=? MaxUint256);
    cbn [js_bind currency andb]; try done;
    destruct (currencyEquals (currency amountIn) (input r));
    cbn [js_bind negb andb]; try done;
    by destruct (currencyEquals _ (output r)).
Qed.

Lemma build_trade_exactOut (s : V3TradeState) currencyIn amountOut r a :
  (inputAmount <-js
     match currencyIn with
     | TokenCurrency t => TokenAmount t a
     | ETHER => CurrencyAmount_ether a
     end ;;
   trade <-js createUncheckedTrade r EXACT_OUTPUT inputAmount amountOut ;;
   Ok {| state := s; trade := Some trade |}) =
  if sdkAccepts currencyIn (currency amountOut) a r
  then Ok {| state := s;
             trade := Some (mkTrade r EXACT_OUTPUT
                              {| currency := currencyIn; raw := a |} amountOut) |}
  else InvariantError.
Proof.
  unfold sdkAccepts, TokenAmount, CurrencyAmount_ether, newCurrencyAmount,
    createUncheckedTrade.
  destruct currencyIn; destruct (a <=? MaxUint256);
    cbn [js_bind currency andb]; try done;
    destruct (currencyEquals _ (input r));
    cbn [js_bind negb andb]; try done;
    by destruct (currencyEquals (currency amountOut) (output r)).
Qed.

(** The selectors, with the construction of the trade folded into
    [sdkAccepts]. *)
Lemma bestV3TradeExactIn_unfold ONE_BIPS THRESHOLD amountIn currencyOut routes
    routesLoading quotes :
  bestV3TradeExactIn ONE_BIPS THRESHOLD amountIn currencyOut routes routesLoading quotes =
  match amountIn, currencyOut with
  | Some ain, Some cout =>
    if routesLoading || some loading quotes then Ok (noTrade LOADING)
    else
      best <-js reduce (exactInReducer ONE_BIPS THRESHOLD routes) quotes noBest ;;
      match bestRoute best, bestAmount best with
      | Some r, Some a =>
        if sdkAccepts (currency ain) cout a r
        then Ok {| state := if some syncing quotes then SYNCING else VALID;
                   trade := Some (mkTrade r EXACT_INPUT ain
                                    {| currency := cout; raw := a |}) |}
        else InvariantError
      | _, _ => Ok (noTrade NO_ROUTE_FOUND)
      end
  | _, _ => Ok (noTrade INVALID)
  end.
Proof.
  unfold bestV3TradeExactIn.
  destruct amountIn as [ain|], currencyOut as [cout|]; try done.
  destruct (_ || _); [done|].
  destruct (reduce _ _ _) as [best| |]; simpl; try done.
  destruct (bestRoute best) as [r|], (bestAmount best) as [a|]; try done.
  apply build_trade_exactIn.
Qed.

Lemma bestV3TradeExactOut_unfold THRESHOLD ONE_HUNDRED currencyIn amountOut routes
    routesLoading quotes :
  bestV3TradeExactOut THRESHOLD ONE_HUNDRED currencyIn amountOut routes routesLoading quotes =
  match amountOut, currencyIn with
  | Some aout, Some cin =>
    if some (fun q => negb (valid q)) quotes then Ok (noTrade INVALID)
    else if routesLoading || some loading quotes then Ok (noTrade LOADING)
    else
      best <-js reduce (exactOutReducer THRESHOLD ONE_HUNDRED routes) quotes noBest ;;
      match bestRoute best, bestAmount best with
      | Some r, Some a =>
        if sdkAccepts cin (currency aout) a r
        then Ok {| state := if some syncing quotes then SYNCING else VALID;
                   trade := Some (mkTrade r EXACT_OUTPUT
                                    {| currency := cin; raw := a |} aout) |}
        else InvariantError
      | _, _ => Ok (noTrade NO_ROUTE_FOUND)
      end
  | _, _ => Ok (noTrade INVALID)
  end.
Proof.
  unfold bestV3TradeExactOut.
  destruct amountOut as [aout|], currencyIn as [cin|]; try done.
  destruct (some _ _); [done|].
  destruct (_ || _); [done|].
  destruct (reduce _ _ _) as [best| |]; simpl; try done.
  destruct (bestRoute best) as [r|], (bestAmount best) as [a|]; try done.
  apply build_trade_exactOut.
Qed.

(** The SDK accepts the winner of a fold over routes between the two
    currencies and quotes within [uint256]. *)
Lemma winner_accepted adopt cin cout routes quotes r a :
  routesBetween cin cout routes -> withinUint256 quotes ->
  let best := foldl (specStep adopt) noBest (zip routes quotes) in
  bestRoute best = Some r -> bestAmount best = Some a ->
  sdkAccepts cin cout a r = true.
Proof.
  intros Hroutes Hquotes best Hr Ha.
  pose proof (foldl_specStep_winner adopt (zip routes quotes)) as Hwin.
  simpl in Hwin. fold best in Hwin. rewrite Hr, Ha in Hwin.
  destruct Hwin as [i (Hri & q & Hq & Hres)%usableAt_zip].
  destruct (Forall_lookup_1 _ _ _ _ Hroutes Hri) as [Hin Hout].
  pose proof (Forall_lookup_1 _ _ _ _ Hquotes Hq) as Hle.
  simpl in Hle. rewrite Hres in Hle. simpl in Hle.
  unfold sdkAccepts. rewrite Hin, Hout. by apply Z.leb_le in Hle as ->.
Qed.

(** The exact-input selector on aligned lists, by the ordered rule: it
    returns the state of the rule, except that the construction of the
    trade of a winner throws when the SDK does not accept it. *)
Lemma bestV3TradeExactIn_rule ONE_BIPS THRESHOLD amountIn currencyOut routes
    routesLoading quotes :
  aligned routes quotes ->
  let best := specReduceIn ONE_BIPS THRESHOLD (zip routes quotes) in
  let rule := specState (present amountIn) (present currencyOut) routesLoading quotes
                (noWinner best) in
  match bestV3TradeExactIn ONE_BIPS THRESHOLD amountIn currencyOut routes routesLoading quotes
  with
  | Ok res =>
    state res = rule /\ (validOrSyncing rule = false -> res = noTrade rule)
  | TypeError => False
  | InvariantError =>
    validOrSyncing rule = true /\
    exists ain cout r a,
      amountIn = Some ain /\ currencyOut = Some cout /\
      bestRoute best = Some r /\ bestAmount best = Some a /\
      sdkAccepts (currency ain) cout a r = false
  end.
Proof.
  intros Hal best rule. subst rule. rewrite bestV3TradeExactIn_unfold. unfold specState.
  destruct amountIn as [ain|]; [|done]. destruct currencyOut as [cout|]; [|done]. simpl.
  unfold some. destruct (routesLoading || existsb loading quotes); [done|].
  rewrite (reduce_exactIn_spec _ _ _ _ Hal); simpl. fold best.
  pose proof (foldl_specStep_paired
    (fun B R hb hc => bool_decide (adoptExactIn ONE_BIPS THRESHOLD B R hb hc))
    (zip routes quotes) noBest) as Hp.
  fold (specReduceIn ONE_BIPS THRESHOLD (zip routes quotes)) in Hp. fold best in Hp.
  unfold noWinner.
  destruct (bestRoute best) as [r|] eqn:Hr, (bestAmount best) as [a|] eqn:Ha.
  - destruct (sdkAccepts (currency ain) cout a r) eqn:Hsdk; simpl.
    + by destruct (existsb syncing quotes).
    + split; [by destruct (existsb syncing quotes)|]. by exists ain, cout, r, a.
  - destruct Hp as [_ Hp]; [done|]. apply Hp in Ha. congruence.
  - done.
  - done.
Qed.

(** C3. Exact input, on aligned lists: whenever the selector returns, its
    state is given by the ordered rule of the specification (INVALID when an
    argument is absent, else LOADING when the routes or a quote are loading,
    else NO_ROUTE_FOUND when the reduction has no winner, else SYNCING when
    a quote is syncing, else VALID); it always returns in the first three
    cases; and it returns in every case when the quotes are within uint256
    and the routes lead from the currency of the amount to the requested
    currency. A single loading quote makes the state LOADING whatever the
    other quotes carry. *)
Theorem exactIn_state_rule ONE_BIPS THRESHOLD amountIn currencyOut routes routesLoading quotes :
  let rule :=
    specState (present amountIn) (present currencyOut) routesLoading quotes
      (noWinner (specReduceIn ONE_BIPS THRESHOLD (zip routes quotes))) in
  (aligned routes quotes ->
   (forall res,
      bestV3TradeExactIn ONE_BIPS THRESHOLD amountIn currencyOut routes routesLoading quotes
        = Ok res ->
      state res = rule) /\
   (validOrSyncing rule = false ->
    bestV3TradeExactIn ONE_BIPS THRESHOLD amountIn currencyOut routes routesLoading quotes
      = Ok (noTrade rule)) /\
   (withinUint256 quotes ->
    (forall ain cout, amountIn = Some ain -> currencyOut = Some cout ->
       routesBetween (currency ain) cout routes) ->
    exists res,
      bestV3TradeExactIn ONE_BIPS THRESHOLD amountIn currencyOut routes routesLoading quotes
        = Ok res /\
      state res = rule)) /\
  (present amountIn = true -> present currencyOut = true ->
   Exists (fun q => loading q = true) quotes ->
   bestV3TradeExactIn ONE_BIPS THRESHOLD amountIn currencyOut routes routesLoading quotes
     = Ok (noTrade LOADING)).
Proof.
  intros rule. split.
  - intros Hal.
    pose proof (bestV3TradeExactIn_rule ONE_BIPS THRESHOLD amountIn currencyOut routes
                  routesLoading quotes Hal) as Hrule.
    simpl in Hrule. fold rule in Hrule.
    destruct (bestV3TradeExactIn _ _ _ _ _ _ _) as [res| |]; [|done|].
    + destruct Hrule as [Hstate Hnone]. split; [|split].
      * by intros ? [= <-].
      * intros Hv. by rewrite (Hnone Hv).
      * intros _ _. by exists res.
    + destruct Hrule as (Hv & ain & cout & r & a & -> & -> & Hr & Ha & Hsdk).
      split; [done|]. split; [congruence|].
      intros Hquotes Hroutes.
      rewrite (winner_accepted _ _ _ _ _ _ _ (Hroutes _ _ eq_refl eq_refl) Hquotes Hr Ha)
        in Hsdk. done.
  - intros Ha Hc Hl. unfold bestV3TradeExactIn.
    destruct amountIn; [|done]. destruct currencyOut; [|done].
    rewrite (some_Exists_true _ _ Hl). by rewrite orb_true_r.
Qed.

Lemma exactIn_state_rule_witness :
  (exists res,
     bestV3TradeExactIn oneBips fiftyBips (Some (amountOf (TokenCurrency tokenA) 5))
       (Some (TokenCurrency tokenB)) [hop1; hop3] false [quote 990; quote 1000]
       = Ok res /\
     state res = VALID) /\
  bestV3TradeExactIn oneBips fiftyBips (Some (amountOf (TokenCurrency tokenA) 5))
    (Some (TokenCurrency tokenB)) [hop1; hop3] false [quote 990; quoteLoading]
  = Ok (noTrade LOADING).
Proof.
  split.
  - destruct (exactIn_state_rule oneBips fiftyBips (Some (amountOf (TokenCurrency tokenA) 5))
                (Some (TokenCurrency tokenB)) [hop1; hop3] false [quote 990; quote 1000])
      as [Hrule _].
    destruct Hrule as (_ & _ & Hreturns); [reflexivity|].
    apply Hreturns.
    + repeat constructor; simpl; unfold MaxUint256; lia.
    + intros ain cout [= <-] [= <-]. repeat constructor.
  - destruct (exactIn_state_rule oneBips fiftyBips (Some (amountOf (TokenCurrency tokenA) 5))
                (Some (TokenCurrency tokenB)) [hop1; hop3] false [quote 990; quoteLoading])
      as [_ Hloading].
    apply Hloading.
    + reflexivity.
    + reflexivity.
    + apply Exists_cons_tl, Exists_cons_hd. reflexivity.
Defined.

(** A settled batch: the state is VALID and the trade carries the
    three-hop route with its quoted output. With a requested currency that
    is not the output of the routes, or a quote above [MaxUint256], the
    construction of the trade throws. *)
Example exactIn_valid_trade :
  bestV3TradeExactIn oneBips fiftyBips (Some (amountOf (TokenCurrency tokenA) 5))
    (Some (TokenCurrency tokenB)) [hop1; hop3] false [quote 990; quote 1000]
  = Ok {| state := VALID;
          trade := Some (mkTrade hop3 EXACT_INPUT (amountOf (TokenCurrency tokenA) 5)
                           (amountOf (TokenCurrency tokenB) 1000)) |} /\
  bestV3TradeExactIn oneBips fiftyBips (Some (amountOf ETHER 5))
    (Some (TokenCurrency tokenA)) [hop1; hop3] false [quote 990; quote 1000]
  = InvariantError /\
  bestV3TradeExactIn oneBips fiftyBips (Some (amountOf (TokenCurrency tokenA) 5))
    (Some (TokenCurrency tokenB)) [hop1] false [quote (MaxUint256 + 1)]
  = InvariantError.
Proof. repeat split. Qed.

(** The outcomes without a trade: the state is neither VALID nor SYNCING. *)
Ltac no_trade_outcome :=
  intros [= <-]; simpl; split; [split; [by intros [? ?]|by intros [?|?]]|done].

(** C9. In every result of either selector the trade is present exactly in
    the states VALID and SYNCING, and a trade that is present carries the
    route and the amount of the winner of the reduction, the direction of
    the selector, and the caller's fixed amount. When nothing is loading
    (and, for exact output, every quote is valid) and the reduction has a
    winner that the SDK accepts, the selector returns VALID or SYNCING with
    exactly that trade. Both selectors return on aligned lists whose quotes
    are within uint256 and whose routes lead from the input currency to the
    output currency. *)
Theorem trade_present_iff_valid_or_syncing ONE_BIPS THRESHOLD ONE_HUNDRED
    amount other routes routesLoading quotes :
  (aligned routes quotes -> withinUint256 quotes ->
   ((forall fixed cur, amount = Some fixed -> other = Some cur ->
       routesBetween (currency fixed) cur routes) ->
    exists res, bestV3TradeExactIn ONE_BIPS THRESHOLD amount other routes routesLoading quotes
                = Ok res) /\
   ((forall fixed cur, amount = Some fixed -> other = Some cur ->
       routesBetween cur (currency fixed) routes) ->
    exists res, bestV3TradeExactOut THRESHOLD ONE_HUNDRED other amount routes routesLoading quotes
                = Ok res)) /\
  (forall res,
   bestV3TradeExactIn ONE_BIPS THRESHOLD amount other routes routesLoading quotes = Ok res ->
   tradeIffValidOrSyncing res /\
   forall t, trade res = Some t ->
     exists fixed cur best,
       amount = Some fixed /\ other = Some cur /\
       reduce (exactInReducer ONE_BIPS THRESHOLD routes) quotes noBest = Ok best /\
       tradeCarries t best EXACT_INPUT fixed cur) /\
  (forall res,
   bestV3TradeExactOut THRESHOLD ONE_HUNDRED other amount routes routesLoading quotes = Ok res ->
   tradeIffValidOrSyncing res /\
   forall t, trade res = Some t ->
     exists fixed cur best,
       amount = Some fixed /\ other = Some cur /\
       reduce (exactOutReducer THRESHOLD ONE_HUNDRED routes) quotes noBest = Ok best /\
       tradeCarries t best EXACT_OUTPUT fixed cur) /\
  (forall fixed cur best r a,
   amount = Some fixed -> other = Some cur ->
   routesLoading = false -> Forall (fun q => loading q = false) quotes ->
   bestRoute best = Some r -> bestAmount best = Some a ->
   (reduce (exactInReducer ONE_BIPS THRESHOLD routes) quotes noBest = Ok best ->
    sdkAccepts (currency fixed) cur a r = true ->
    bestV3TradeExactIn ONE_BIPS THRESHOLD amount other routes routesLoading quotes =
    Ok {| state := if some syncing quotes then SYNCING else VALID;
          trade := Some (mkTrade r EXACT_INPUT fixed {| currency := cur; raw := a |}) |}) /\
   (Forall (fun q => valid q = true) quotes ->
    reduce (exactOutReducer THRESHOLD ONE_HUNDRED routes) quotes noBest = Ok best ->
    sdkAccepts cur (currency fixed) a r = true ->
    bestV3TradeExactOut THRESHOLD ONE_HUNDRED other amount routes routesLoading quotes =
    Ok {| state := if some syncing quotes then SYNCING else VALID;
          trade := Some (mkTrade r EXACT_OUTPUT {| currency := cur; raw := a |} fixed) |})).
Proof.
  rewrite bestV3TradeExactIn_unfold, bestV3TradeExactOut_unfold.
  unfold tradeIffValidOrSyncing, tradeCarries. split; [|split; [|split]].
  - intros Hal Hquotes.
    rewrite (reduce_exactIn_spec _ _ _ _ Hal), (reduce_exactOut_spec _ _ _ _ Hal); simpl.
    split; intros Hroutes.
    + destruct amount as [fixed|], other as [cur|]; try by eexists.
      destruct (_ || _); [by eexists|].
      destruct (bestRoute (specReduceIn ONE_BIPS THRESHOLD (zip routes quotes)))
        as [r|] eqn:Hr,
        (bestAmount (specReduceIn ONE_BIPS THRESHOLD (zip routes quotes)))
        as [a|] eqn:Ha; try by eexists.
      rewrite (winner_accepted _ _ _ _ _ _ _ (Hroutes _ _ eq_refl eq_refl) Hquotes Hr Ha).
      by eexists.
    + destruct amount as [fixed|], other as [cur|]; try by eexists.
      destruct (some _ _); [by eexists|].
      destruct (_ || _); [by eexists|].
      destruct (bestRoute (specReduceOut THRESHOLD ONE_HUNDRED (zip routes quotes)))
        as [r|] eqn:Hr,
        (bestAmount (specReduceOut THRESHOLD ONE_HUNDRED (zip routes quotes)))
        as [a|] eqn:Ha; try by eexists.
      rewrite (winner_accepted _ _ _ _ _ _ _ (Hroutes _ _ eq_refl eq_refl) Hquotes Hr Ha).
      by eexists.
  - intros res.
    destruct amount as [fixed|], other as [cur|]; try no_trade_outcome.
    destruct (_ || _); [no_trade_outcome|].
    destruct (reduce _ _ _) as [best| |]; simpl; [|done..].
    destruct (bestRoute best) as [br|] eqn:Hbr, (bestAmount best) as [ba|] eqn:Hba;
      try no_trade_outcome.
    destruct (sdkAccepts _ _ _ _); [|done].
    intros [= <-]; simpl. split.
    + split; [|by eexists]. intros _. destruct (some syncing quotes); auto.
    + intros t [= <-]. exists fixed, cur, best. repeat split; [done..|].
      by exists ba.
  - intros res.
    destruct amount as [fixed|], other as [cur|]; try no_trade_outcome.
    destruct (some _ _); [no_trade_outcome|].
    destruct (_ || _); [no_trade_outcome|].
    destruct (reduce _ _ _) as [best| |]; simpl; [|done..].
    destruct (bestRoute best) as [br|] eqn:Hbr, (bestAmount best) as [ba|] eqn:Hba;
      try no_trade_outcome.
    destruct (sdkAccepts _ _ _ _); [|done].
    intros [= <-]; simpl. split.
    + split; [|by eexists]. intros _. destruct (some syncing quotes); auto.
    + intros t [= <-]. exists fixed, cur, best. repeat split; [done..|].
      by exists ba.
  - intros fixed cur best r a -> -> -> Hload Hr Ha. split.
    + intros -> Hsdk. rewrite (some_Forall_false _ _ Hload). simpl.
      by rewrite Hr, Ha, Hsdk.
    + intros Hvalid -> Hsdk.
      rewrite (some_Forall_false (fun q => negb (valid q)) quotes).
      2:{ eapply Forall_impl; [exact Hvalid|]. by intros q ->. }
      rewrite (some_Forall_false _ _ Hload). simpl.
      by rewrite Hr, Ha, Hsdk.
Qed.

Lemma trade_present_iff_valid_or_syncing_witness :
  (exists res,
     bestV3TradeExactIn oneBips fiftyBips (Some (amountOf (TokenCurrency tokenA) 5))
       (Some (TokenCurrency tokenB)) [hop1; hop3] false [quote 990; quote 1000] = Ok res) /\
  tradeIffValidOrSyncing
    {| state := VALID;
       trade := Some (mkTrade hop3 EXACT_INPUT (amountOf (TokenCurrency tokenA) 5)
                        (amountOf (TokenCurrency tokenB) 1000)) |} /\
  bestV3TradeExactOut fiftyBips oneHundredPercent (Some (TokenCurrency tokenA))
    (Some (amountOf (TokenCurrency tokenB) 5)) [hop1; hop3] false [quote 990; quote 1000]
  = Ok {| state := VALID;
          trade := Some (mkTrade hop1 EXACT_OUTPUT (amountOf (TokenCurrency tokenA) 990)
                           (amountOf (TokenCurrency tokenB) 5)) |}.
Proof.
  destruct (trade_present_iff_valid_or_syncing oneBips fiftyBips oneHundredPercent
              (Some (amountOf (TokenCurrency tokenA) 5)) (Some (TokenCurrency tokenB))
              [hop1; hop3] false [quote 990; quote 1000]) as (Htotal & Hin & _ & _).
  destruct (trade_present_iff_valid_or_syncing oneBips fiftyBips oneHundredPercent
              (Some (amountOf (TokenCurrency tokenB) 5)) (Some (TokenCurrency tokenA))
              [hop1; hop3] false [quote 990; quote 1000]) as (_ & _ & _ & Hbuilt).
  split; [|split].
  - destruct Htotal as [Hreturns _].
    + reflexivity.
    + repeat constructor; simpl; unfold MaxUint256; lia.
    + apply Hreturns. intros fixed cur [= <-] [= <-]. repeat constructor.
  - apply Hin. reflexivity.
  - assert (Forall (fun q => loading q = false) [quote 990; quote 1000]) as Hload
      by repeat constructor.
    assert (Forall (fun q => valid q = true) [quote 990; quote 1000]) as Hvalid
      by repeat constructor.
    exact (proj2 (Hbuilt (amountOf (TokenCurrency tokenB) 5) (TokenCurrency tokenA)
                    {| bestRoute := Some hop1; bestAmount := Some 990 |} hop1 990
                    eq_refl eq_refl eq_refl Hload eq_refl eq_refl)
                 Hvalid eq_refl eq_refl).
Defined.

Lemma js_bind_TypeError {A B : Type} (m : js A) (k : A -> js B) :
  (forall a, k a <> TypeError) ->
  js_bind m k = TypeError <-> m = TypeError.
Proof.
  intros Hk. destruct m as [a| |]; simpl; [|done..].
  split; [by intros ?%Hk|done].
Qed.

(** Either selector throws a [TypeError] exactly when both arguments are
    present, nothing is loading (and, for exact output, every quote is
    valid) and the reduction reads a missing route; it throws an invariant
    error of the SDK exactly when, on such a settled call, the reduction
    has a winner that the SDK does not accept. With at most as many quotes
    as routes there is no [TypeError]. *)
Theorem selectors_throw_iff ONE_BIPS THRESHOLD ONE_HUNDRED
    amount other routes routesLoading quotes :
  (bestV3TradeExactIn ONE_BIPS THRESHOLD amount other routes routesLoading quotes = TypeError
   <-> is_Some amount /\ is_Some other /\ routesLoading = false /\
       Forall (fun q => loading q = false) quotes /\
       readsMissingRoute routes quotes) /\
  (bestV3TradeExactOut THRESHOLD ONE_HUNDRED other amount routes routesLoading quotes = TypeError
   <-> is_Some amount /\ is_Some other /\ routesLoading = false /\
       Forall (fun q => valid q = true) quotes /\
       Forall (fun q => loading q = false) quotes /\
       readsMissingRoute routes quotes) /\
  (bestV3TradeExactIn ONE_BIPS THRESHOLD amount other routes routesLoading quotes
     = InvariantError
   <-> exists fixed cur best r a,
       amount = Some fixed /\ other = Some cur /\ routesLoading = false /\
       Forall (fun q => loading q = false) quotes /\
       reduce (exactInReducer ONE_BIPS THRESHOLD routes) quotes noBest = Ok best /\
       bestRoute best = Some r /\ bestAmount best = Some a /\
       sdkAccepts (currency fixed) cur a r = false) /\
  (bestV3TradeExactOut THRESHOLD ONE_HUNDRED other amount routes routesLoading quotes
     = InvariantError
   <-> exists fixed cur best r a,
       amount = Some fixed /\ other = Some cur /\ routesLoading = false /\
       Forall (fun q => valid q = true) quotes /\
       Forall (fun q => loading q = false) quotes /\
       reduce (exactOutReducer THRESHOLD ONE_HUNDRED routes) quotes noBest = Ok best /\
       bestRoute best = Some r /\ bestAmount best = Some a /\
       sdkAccepts cur (currency fixed) a r = false) /\
  ((length quotes <= length routes)%nat ->
   bestV3TradeExactIn ONE_BIPS THRESHOLD amount other routes routesLoading quotes <> TypeError /\
   bestV3TradeExactOut THRESHOLD ONE_HUNDRED other amount routes routesLoading quotes <> TypeError).
Proof.
  rewrite bestV3TradeExactIn_unfold, bestV3TradeExactOut_unfold.
  pose proof (reduce_throws routes _ quotes (exactInReducer_shape ONE_BIPS THRESHOLD routes))
    as HthrowIn.
  pose proof (reduce_throws routes _ quotes (exactOutReducer_shape THRESHOLD ONE_HUNDRED routes))
    as HthrowOut.
  pose proof (reduce_from_no_invariant routes _
                (exactInReducer_shape ONE_BIPS THRESHOLD routes) quotes 0%nat noBest) as HinvIn.
  pose proof (reduce_from_no_invariant routes _
                (exactOutReducer_shape THRESHOLD ONE_HUNDRED routes) quotes 0%nat noBest)
    as HinvOut.
  fold (reduce (exactInReducer ONE_BIPS THRESHOLD routes) quotes noBest) in HinvIn.
  fold (reduce (exactOutReducer THRESHOLD ONE_HUNDRED routes) quotes noBest) in HinvOut.
  assert (Hvalid : Forall (fun q => valid q = true) quotes
                   <-> some (fun q => negb (valid q)) quotes = false).
  { rewrite some_false_iff. apply Forall_iff. intros q. by destruct (valid q). }
  rewrite Hvalid, <- !(some_false_iff loading).
  assert (Hin_type :
    match amount, other with
    | Some ain, Some cout =>
      if routesLoading || some loading quotes then Ok (noTrade LOADING)
      else
        best <-js reduce (exactInReducer ONE_BIPS THRESHOLD routes) quotes noBest ;;
        match bestRoute best, bestAmount best with
        | Some r, Some a =>
          if sdkAccepts (currency ain) cout a r
          then Ok {| state := if some syncing quotes then SYNCING else VALID;
                     trade := Some (mkTrade r EXACT_INPUT ain
                                      {| currency := cout; raw := a |}) |}
          else InvariantError
        | _, _ => Ok (noTrade NO_ROUTE_FOUND)
        end
    | _, _ => Ok (noTrade INVALID)
    end = TypeError
    <-> is_Some amount /\ is_Some other /\ routesLoading = false /\
        some loading quotes = false /\
        reduce (exactInReducer ONE_BIPS THRESHOLD routes) quotes noBest = TypeError).
  { destruct amount as [ain|]; [|split; [done|by intros [[? ?] _]]].
    destruct other as [cout|]; [|split; [done|by intros (_ & [? ?] & _)]].
    destruct routesLoading; simpl; [split; [done|by intros (_ & _ & ? & _)]|].
    destruct (some loading quotes); [split; [done|by intros (_ & _ & _ & ? & _)]|].
    rewrite js_bind_TypeError.
    - split; [|by intros (_ & _ & _ & _ & ?)]. intros ->. repeat split; by eexists.
    - intros best. destruct (bestRoute best), (bestAmount best); try done.
      by destruct (sdkAccepts _ _ _ _). }
  assert (Hout_type :
    match amount, other with
    | Some aout, Some cin =>
      if some (fun q => negb (valid q)) quotes then Ok (noTrade INVALID)
      else if routesLoading || some loading quotes then Ok (noTrade LOADING)
      else
        best <-js reduce (exactOutReducer THRESHOLD ONE_HUNDRED routes) quotes noBest ;;
        match bestRoute best, bestAmount best with
        | Some r, Some a =>
          if sdkAccepts cin (currency aout) a r
          then Ok {| state := if some syncing quotes then SYNCING else VALID;
                     trade := Some (mkTrade r EXACT_OUTPUT
                                      {| currency := cin; raw := a |} aout) |}
          else InvariantError
        | _, _ => Ok (noTrade NO_ROUTE_FOUND)
        end
    | _, _ => Ok (noTrade INVALID)
    end = TypeError
    <-> is_Some amount /\ is_Some other /\ routesLoading = false /\
        some (fun q => negb (valid q)) quotes = false /\
        some loading quotes = false /\
        reduce (exactOutReducer THRESHOLD ONE_HUNDRED routes) quotes noBest = TypeError).
  { destruct amount as [aout|]; [|split; [done|by intros [[? ?] _]]].
    destruct other as [cin|]; [|split; [done|by intros (_ & [? ?] & _)]].
    destruct (some (fun q => negb (valid q)) quotes);
      [split; [done|by intros (_ & _ & _ & ? & _)]|].
    destruct routesLoading; simpl; [split; [done|by intros (_ & _ & ? & _)]|].
    destruct (some loading quotes); [split; [done|by intros (_ & _ & _ & _ & ? & _)]|].
    rewrite js_bind_TypeError.
    - split; [|by intros (_ & _ & _ & _ & _ & ?)]. intros ->. repeat split; by eexists.
    - intros best. destruct (bestRoute best), (bestAmount best); try done.
      by destruct (sdkAccepts _ _ _ _). }
  split; [by rewrite <- HthrowIn|]. split; [by rewrite <- HthrowOut|]. split; [|split].
  - clear Hin_type Hout_type.
    destruct amount as [ain|];
      [|split; [done|by intros (? & ? & ? & ? & ? & ? & _)]].
    destruct other as [cout|];
      [|split; [done|by intros (? & ? & ? & ? & ? & _ & ? & _)]].
    destruct routesLoading; simpl;
      [split; [done|by intros (? & ? & ? & ? & ? & _ & _ & ? & _)]|].
    destruct (some loading quotes) eqn:Hl.
    { split; [done|]. intros (? & ? & ? & ? & ? & _ & _ & _ & Hload & _).
      apply some_false_iff in Hload. congruence. }
    apply some_false_iff in Hl.
    destruct (reduce (exactInReducer ONE_BIPS THRESHOLD routes) quotes noBest)
      as [best| |]; simpl.
    + destruct (bestRoute best) as [r|] eqn:Hr, (bestAmount best) as [a|] eqn:Ha;
        try (split; [done|];
             intros (? & ? & ? & ? & ? & _ & _ & _ & _ & [= <-] & ? & ? & _); congruence).
      destruct (sdkAccepts (currency ain) cout a r) eqn:Hsdk.
      * split; [done|].
        intros (? & ? & ? & ? & ? & [= <-] & [= <-] & _ & _ & [= <-] & ? & ? & ?).
        congruence.
      * split; [|done]. intros _. by exists ain, cout, best, r, a.
    + split; [done|]. by intros (? & ? & ? & ? & ? & _ & _ & _ & _ & ? & _).
    + done.
  - clear Hin_type Hout_type.
    destruct amount as [aout|];
      [|split; [done|by intros (? & ? & ? & ? & ? & ? & _)]].
    destruct other as [cin|];
      [|split; [done|by intros (? & ? & ? & ? & ? & _ & ? & _)]].
    destruct (some (fun q => negb (valid q)) quotes) eqn:Hv.
    { split; [done|]. intros (? & ? & ? & ? & ? & _ & _ & _ & Hval & _).
      by apply Hvalid in Hval. }
    assert (Forall (fun q => valid q = true) quotes) as Hval by by apply Hvalid.
    destruct routesLoading; simpl;
      [split; [done|by intros (? & ? & ? & ? & ? & _ & _ & ? & _)]|].
    destruct (some loading quotes) eqn:Hl.
    { split; [done|]. intros (? & ? & ? & ? & ? & _ & _ & _ & _ & Hload & _).
      apply some_false_iff in Hload. congruence. }
    apply some_false_iff in Hl.
    destruct (reduce (exactOutReducer THRESHOLD ONE_HUNDRED routes) quotes noBest)
      as [best| |]; simpl.
    + destruct (bestRoute best) as [r|] eqn:Hr, (bestAmount best) as [a|] eqn:Ha;
        try (split; [done|];
             intros (? & ? & ? & ? & ? & _ & _ & _ & _ & _ & [= <-] & ? & ? & _);
             congruence).
      destruct (sdkAccepts cin (currency aout) a r) eqn:Hsdk.
      * split; [done|].
        intros (? & ? & ? & ? & ? & [= <-] & [= <-] & _ & _ & _ & [= <-] & ? & ? & ?).
        congruence.
      * split; [|done]. intros _. by exists aout, cin, best, r, a.
    + split; [done|]. by intros (? & ? & ? & ? & ? & _ & _ & _ & _ & _ & ? & _).
    + done.
  - intros Hlen. split.
    + rewrite Hin_type, HthrowIn.
      intros (_ & _ & _ & _ & Hr%readsMissingRoute_length). lia.
    + rewrite Hout_type, HthrowOut.
      intros (_ & _ & _ & _ & _ & Hr%readsMissingRoute_length). lia.
Qed.

Lemma selectors_throw_iff_witness :
  bestV3TradeExactIn oneBips fiftyBips (Some (amountOf (TokenCurrency tokenA) 5))
    (Some (TokenCurrency tokenB)) [hop1; hop3] false [quote 990]
    <> TypeError /\
  bestV3TradeExactOut fiftyBips oneHundredPercent (Some (TokenCurrency tokenB))
    (Some (amountOf (TokenCurrency tokenA) 5)) [hop1; hop3] false [quote 990]
    <> TypeError.
Proof.
  apply (selectors_throw_iff oneBips fiftyBips oneHundredPercent
           (Some (amountOf (TokenCurrency tokenA) 5)) (Some (TokenCurrency tokenB))
           [hop1; hop3] false [quote 990]).
  simpl. lia.
Defined.

(** Two usable quotes for one route: the selector throws a [TypeError],
    whereas a loading flag in the same batch returns LOADING first. An
    amount in a currency other than the input of the winning route: the
    SDK throws. *)
Example selector_throws :
  bestV3TradeExactIn oneBips fiftyBips (Some (amountOf (TokenCurrency tokenA) 5))
    (Some (TokenCurrency tokenB)) [hop1] false [quote 990; quote 1000] = TypeError /\
  bestV3TradeExactIn oneBips fiftyBips (Some (amountOf (TokenCurrency tokenA) 5))
    (Some (TokenCurrency tokenB)) [hop1] false [quote 990; quote 1000; quoteLoading]
  = Ok (noTrade LOADING) /\
  bestV3TradeExactOut fiftyBips oneHundredPercent (Some (TokenCurrency tokenA))
    (Some (amountOf ETHER 5)) [hop1; hop3] false [quoteEmpty; quote 1000]
  = InvariantError.
Proof. repeat split. Qed.

(** With both arguments present, a settled and aligned batch, quotes within
    uint256 and routes that lead from the input currency to the output
    currency, a selector returns a trade exactly when some quote carries an
    amount; otherwise the state is NO_ROUTE_FOUND. *)
Theorem trade_iff_usable_quote ONE_BIPS THRESHOLD ONE_HUNDRED
    (amount : CurrencyAmount) (other : Currency) routes quotes :
  aligned routes quotes ->
  Forall (fun q => loading q = false) quotes ->
  withinUint256 quotes ->
  (routesBetween (currency amount) other routes ->
   exists res,
     bestV3TradeExactIn ONE_BIPS THRESHOLD (Some amount) (Some other) routes false quotes
       = Ok res /\
     (is_Some (trade res) <-> Exists (fun q => is_Some (result q)) quotes) /\
     (state res = NO_ROUTE_FOUND <-> Forall (fun q => result q = None) quotes)) /\
  (Forall (fun q => valid q = true) quotes ->
   routesBetween other (currency amount) routes ->
   exists res,
     bestV3TradeExactOut THRESHOLD ONE_HUNDRED (Some other) (Some amount) routes false quotes
       = Ok res /\
     (is_Some (trade res) <-> Exists (fun q => is_Some (result q)) quotes) /\
     (state res = NO_ROUTE_FOUND <-> Forall (fun q => result q = None) quotes)).
Proof.
  intros Hal Hload Hquotes.
  assert (Hnone : Forall (fun q => result q = None) quotes <->
                  ~ Exists (fun q => is_Some (result q)) quotes).
  { rewrite <- Forall_Exists_neg. apply Forall_iff. intros q.
    destruct (result q); split; try done.
    intros Hn. destruct Hn. by eexists. }
  assert (Hgen : forall adopt cin cout (build : Route -> Z -> Trade),
    routesBetween cin cout routes ->
    let best := foldl (specStep adopt) noBest (zip routes quotes) in
    exists res,
      match bestRoute best, bestAmount best with
      | Some r, Some a =>
        if sdkAccepts cin cout a r
        then Ok {| state := if some syncing quotes then SYNCING else VALID;
                   trade := Some (build r a) |}
        else InvariantError
      | _, _ => Ok (noTrade NO_ROUTE_FOUND)
      end = Ok res /\
      (is_Some (trade res) <-> Exists (fun q => is_Some (result q)) quotes) /\
      (state res = NO_ROUTE_FOUND <-> Forall (fun q => result q = None) quotes)).
  { intros adopt cin cout build Hroutes best.
    pose proof (foldl_specStep_amount adopt (zip routes quotes)) as Hamount.
    pose proof (foldl_specStep_paired adopt (zip routes quotes) noBest) as Hpaired.
    pose proof (winner_accepted adopt cin cout routes quotes) as Hacc.
    rewrite (Exists_zip_usable _ _ Hal) in Hamount.
    simpl in Hacc. fold best in Hamount, Hpaired, Hacc.
    destruct (bestRoute best) as [r|] eqn:Hr, (bestAmount best) as [a|] eqn:Ha; simpl.
    - rewrite (Hacc r a) by done. eexists. split; [done|]. simpl.
      assert (Exists (fun q => is_Some (result q)) quotes) as Hex
        by (apply Hamount; by eexists).
      split; [split; [done|by eexists]|].
      split; [by destruct (some syncing quotes)|].
      intros Hf. by apply Hnone in Hf.
    - destruct Hpaired as [_ Hp]; [done|]. apply Hp in Ha. congruence.
    - destruct Hpaired as [Hp _]; [done|]. apply Hp in Hr. congruence.
    - eexists. split; [done|]. simpl.
      assert (~ Exists (fun q => is_Some (result q)) quotes) as Hnex.
      { intros Hex. apply Hamount in Hex. by destruct Hex. }
      split; [split; [by intros [? ?]|done]|].
      split; [intros _; by apply Hnone|done]. }
  split.
  - intros Hroutes. rewrite bestV3TradeExactIn_unfold.
    rewrite (some_Forall_false _ _ Hload), (reduce_exactIn_spec _ _ _ _ Hal); simpl.
    apply (Hgen _ _ _ (fun r a => mkTrade r EXACT_INPUT amount
                                   {| currency := other; raw := a |}) Hroutes).
  - intros Hvalid Hroutes. rewrite bestV3TradeExactOut_unfold.
    rewrite (some_Forall_false (fun q => negb (valid q)) quotes).
    2:{ eapply Forall_impl; [exact Hvalid|]. by intros q ->. }
    rewrite (some_Forall_false _ _ Hload), (reduce_exactOut_spec _ _ _ _ Hal); simpl.
    apply (Hgen _ _ _ (fun r a => mkTrade r EXACT_OUTPUT
                                   {| currency := other; raw := a |} amount) Hroutes).
Qed.

Lemma trade_iff_usable_quote_witness :
  exists res,
    bestV3TradeExactOut fiftyBips oneHundredPercent (Some (TokenCurrency tokenA))
      (Some (amountOf (TokenCurrency tokenB) 5)) [hop1; hop3] false [quoteEmpty; quote 1000]
      = Ok res /\
    (is_Some (trade res) <->
     Exists (fun q => is_Some (result q)) [quoteEmpty; quote 1000]) /\
    (state res = NO_ROUTE_FOUND <->
     Forall (fun q => result q = None) [quoteEmpty; quote 1000]).
Proof.
  destruct (trade_iff_usable_quote oneBips fiftyBips oneHundredPercent
              (amountOf (TokenCurrency tokenB) 5) (TokenCurrency tokenA) [hop1; hop3]
              [quoteEmpty; quote 1000]) as [_ Hout].
  - reflexivity.
  - repeat constructor.
  - repeat constructor; simpl; unfold MaxUint256; lia.
  - apply Hout; repeat constructor.
Defined.

(** On aligned lists the trade of either selector pairs a route with its
    own quote: the route is [routes[i]] and the computed amount is the
    amount of [quotes[i]], for one index [i]; the other amount is the
    caller's. *)
Theorem trade_is_a_quoted_pair ONE_BIPS THRESHOLD ONE_HUNDRED
    amount other routes routesLoading quotes :
  aligned routes quotes ->
  (forall res t,
     bestV3TradeExactIn ONE_BIPS THRESHOLD amount other routes routesLoading quotes = Ok res ->
     trade res = Some t ->
     amount = Some (inputAmount t) /\ other = Some (currency (outputAmount t)) /\
     exists i q,
       routes !! i = Some (route t) /\ quotes !! i = Some q /\
       result q = Some (raw (outputAmount t))) /\
  (forall res t,
     bestV3TradeExactOut THRESHOLD ONE_HUNDRED other amount routes routesLoading quotes = Ok res ->
     trade res = Some t ->
     amount = Some (outputAmount t) /\ other = Some (currency (inputAmount t)) /\
     exists i q,
       routes !! i = Some (route t) /\ quotes !! i = Some q /\
       result q = Some (raw (inputAmount t))).
Proof.
  intros Hal. split; intros res t.
  - rewrite bestV3TradeExactIn_unfold.
    destruct amount as [fixed|], other as [cur|]; try by intros [= <-].
    destruct (_ || _); [by intros [= <-]|].
    rewrite (reduce_exactIn_spec _ _ _ _ Hal); simpl. unfold specReduceIn.
    pose proof (foldl_specStep_winner
      (fun B R hb hc => bool_decide (adoptExactIn ONE_BIPS THRESHOLD B R hb hc))
      (zip routes quotes)) as Hwin. simpl in Hwin.
    destruct (bestRoute _) as [r|], (bestAmount _) as [a|]; try by intros [= <-].
    destruct (sdkAccepts _ _ _ _); [|done].
    intros [= <-] [= <-]. simpl. destruct Hwin as [i (Hr & q & Hq & Hres)%usableAt_zip].
    split; [done|]. split; [done|]. by exists i, q.
  - rewrite bestV3TradeExactOut_unfold.
    destruct amount as [fixed|], other as [cur|]; try by intros [= <-].
    destruct (some _ _); [by intros [= <-]|].
    destruct (_ || _); [by intros [= <-]|].
    rewrite (reduce_exactOut_spec _ _ _ _ Hal); simpl. unfold specReduceOut.
    pose proof (foldl_specStep_winner
      (fun B R hb hc => bool_decide (adoptExactOut THRESHOLD ONE_HUNDRED B R hb hc))
      (zip routes quotes)) as Hwin. simpl in Hwin.
    destruct (bestRoute _) as [r|], (bestAmount _) as [a|]; try by intros [= <-].
    destruct (sdkAccepts _ _ _ _); [|done].
    intros [= <-] [= <-]. simpl. destruct Hwin as [i (Hr & q & Hq & Hres)%usableAt_zip].
    split; [done|]. split; [done|]. by exists i, q.
Qed.

Lemma trade_is_a_quoted_pair_witness :
  exists i q,
    [hop1; hop3] !! i = Some hop3 /\ [quote 990; quote 1000] !! i = Some q /\
    result q = Some 1000.
Proof.
  destruct (trade_is_a_quoted_pair oneBips fiftyBips oneHundredPercent
              (Some (amountOf (TokenCurrency tokenA) 5)) (Some (TokenCurrency tokenB))
              [hop1; hop3] false [quote 990; quote 1000]) as [Hin _]; [reflexivity|].
  pose (t := mkTrade hop3 EXACT_INPUT (amountOf (TokenCurrency tokenA) 5)
              (amountOf (TokenCurrency tokenB) 1000)).
  destruct (Hin {| state := VALID; trade := Some t |} t) as (_ & _ & Hpair);
    [reflexivity|reflexivity|].
  exact Hpair.
Defined.

(** ** The fewer-hops branch of exact input *)

Lemma exactIn_not_within_threshold ONE_BIPS THRESHOLD B R :
  isOneBips ONE_BIPS -> atMostOneMinusOneBips THRESHOLD ->
  0 <= R -> R <= B ->
  lessThan (subtract (Percent B R) ONE_BIPS) THRESHOLD = false.
Proof.
  intros [Hu Hv] [Hq Hp] HR HB. unfold subtract, lessThan; simpl.
  destruct ONE_BIPS as [u v], THRESHOLD as [p q]; simpl in *. subst v.
  assert (10000 * p <= 9999 * q) as Hpq by lia.
  destruct (R =? 10000 * u) eqn:HRv; simpl; apply Z.ltb_ge.
  - apply Z.eqb_eq in HRv.
    assert (9999 * u <= B - u) by lia.
    assert (p * R = u * (10000 * p)) as -> by lia.
    assert (u * (10000 * p) <= u * (9999 * q)) by nia.
    assert (u * (9999 * q) <= (B - u) * q) by nia. lia.
  - assert (0 <= u * R) by nia.
    assert (p * (R * (10000 * u)) = (u * R) * (10000 * p)) as -> by lia.
    assert ((u * R) * (10000 * p) <= (u * R) * (9999 * q)) by nia.
    assert ((u * R) * 9999 <= B * (10000 * u) - u * R) by nia.
    assert ((u * R) * (9999 * q) <= (B * (10000 * u) - u * R) * q) by nia. lia.
Qed.

Lemma adoptExactIn_iff ONE_BIPS THRESHOLD B R hb hc :
  isOneBips ONE_BIPS -> atMostOneMinusOneBips THRESHOLD ->
  0 <= R ->
  adoptExactIn ONE_BIPS THRESHOLD B R hb hc <-> B < R.
Proof.
  intros HO HT HR. unfold adoptExactIn, withinThresholdIn. split.
  - intros [Hlt|(Hge & _ & Hw & _)]; [done|].
    rewrite exactIn_not_within_threshold in Hw by (done || lia). done.
  - intros Hlt. by left.
Qed.

(** A step that adopts exactly the strictly larger amounts keeps the best
    at the first maximum of the pairs seen so far. *)
Lemma specStep_firstMaximum adopt pairs best r q :
  (forall B R hb hc, 0 <= R -> adopt B R hb hc = bool_decide (B < R)) ->
  from_option (fun a => 0 <= a) True (result q) ->
  firstMaximum pairs best ->
  firstMaximum (pairs ++ [(r, q)]) (specStep adopt best (r, q)).
Proof.
  intros Hadopt Hnn Hmax. unfold specStep; simpl.
  destruct (result q) as [R|] eqn:HR; simpl in Hnn.
  - destruct Hmax as [[-> Hnone]|(i & r0 & a & -> & Hi & Hall & Hbefore)]; simpl.
    + right. exists (length pairs), r, R. split; [done|]. split; [|split].
      * apply usableAt_snoc. by right.
      * intros j r' a' [Hu|(_ & _ & Ha)]%usableAt_snoc; [by destruct (Hnone _ _ _ Hu)|].
        assert (a' = R) by congruence. lia.
      * intros j r' a' Hj [Hu|(-> & _)]%usableAt_snoc; [by destruct (Hnone _ _ _ Hu)|lia].
    + rewrite Hadopt by done. right. case_bool_decide as Hlt.
      * exists (length pairs), r, R. split; [done|]. split; [|split].
        -- apply usableAt_snoc. by right.
        -- intros j r' a' [Hu|(_ & _ & Ha)]%usableAt_snoc.
           ++ specialize (Hall _ _ _ Hu). lia.
           ++ assert (a' = R) by congruence. lia.
        -- intros j r' a' Hj [Hu|(-> & _)]%usableAt_snoc; [|lia].
           specialize (Hall _ _ _ Hu). lia.
      * exists i, r0, a. split; [done|]. split; [|split].
        -- apply usableAt_snoc. by left.
        -- intros j r' a' [Hu|(_ & _ & Ha)]%usableAt_snoc; [by eapply Hall|].
           assert (a' = R) by congruence. lia.
        -- intros j r' a' Hj [Hu|(-> & _)]%usableAt_snoc; [by eapply Hbefore|].
           apply usableAt_lt in Hi. lia.
  - destruct Hmax as [[-> Hnone]|(i & r0 & a & -> & Hi & Hall & Hbefore)].
    + left. split; [done|]. intros j r' a' [Hu|(_ & _ & Ha)]%usableAt_snoc.
      * by destruct (Hnone _ _ _ Hu).
      * congruence.
    + right. exists i, r0, a. split; [done|]. split; [|split].
      * apply usableAt_snoc. by left.
      * intros j r' a' [Hu|(_ & _ & Ha)]%usableAt_snoc; [by eapply Hall|congruence].
      * intros j r' a' Hj [Hu|(_ & _ & Ha)]%usableAt_snoc; [by eapply Hbefore|congruence].
Qed.

Lemma foldl_specStep_firstMaximum adopt pairs :
  (forall B R hb hc, 0 <= R -> adopt B R hb hc = bool_decide (B < R)) ->
  Forall (fun pair => from_option (fun a => 0 <= a) True (result pair.2)) pairs ->
  firstMaximum pairs (foldl (specStep adopt) noBest pairs).
Proof.
  intros Hadopt. induction pairs as [|[r q] pairs IH] using rev_ind; intros Hnn.
  - left. split; [done|]. intros i r a (q & Hq & _). by rewrite lookup_nil in Hq.
  - apply Forall_app in Hnn as [Hnn Hq]. apply Forall_inv in Hq.
    rewrite foldl_app; simpl. apply specStep_firstMaximum; [done..|by apply IH].
Qed.

Lemma nonNegativeQuotes_zip routes quotes :
  nonNegativeQuotes quotes ->
  Forall (fun pair : Route * CallState =>
            from_option (fun a => 0 <= a) True (result pair.2)) (zip routes quotes).
Proof.
  unfold nonNegativeQuotes. intros Hnn. revert routes.
  induction Hnn as [|q quotes Hq _ IH]; intros [|r routes]; simpl; by constructor.
Qed.

(** With one basis point as [ONE_BIPS], a threshold of at most 99.99% and
    non-negative quotes, the fewer-hops branch of exact input never fires:
    for a candidate output R not above the best output B,
    Percent(B, R) - ONE_BIPS is not less than the threshold. The reduction
    then returns the first pair, in list order, whose amount is the maximum
    of the usable amounts, whatever the hop counts. *)
Theorem exactIn_first_maximum ONE_BIPS THRESHOLD :
  isOneBips ONE_BIPS -> atMostOneMinusOneBips THRESHOLD ->
  (forall B R, 0 <= R -> R <= B ->
     lessThan (subtract (Percent B R) ONE_BIPS) THRESHOLD = false) /\
  (forall routes quotes,
     aligned routes quotes -> nonNegativeQuotes quotes ->
     exists best,
       reduce (exactInReducer ONE_BIPS THRESHOLD routes) quotes noBest = Ok best /\
       firstMaximum (zip routes quotes) best).
Proof.
  intros HO HT. split.
  - intros B R. by apply exactIn_not_within_threshold.
  - intros routes quotes Hal Hnn. eexists. split; [by apply reduce_exactIn_spec|].
    apply foldl_specStep_firstMaximum.
    + intros B R hb hc HR. apply bool_decide_ext. by apply adoptExactIn_iff.
    + by apply nonNegativeQuotes_zip.
Qed.

Lemma exactIn_first_maximum_witness :
  exists best,
    reduce (exactInReducer oneBips fiftyBips [hop3; hop1; hop1])
           [quote 1000; quote 999; quote 1000] noBest = Ok best /\
    firstMaximum (zip [hop3; hop1; hop1] [quote 1000; quote 999; quote 1000]) best.
Proof.
  apply (exactIn_first_maximum oneBips fiftyBips).
  - unfold isOneBips; simpl. lia.
  - unfold atMostOneMinusOneBips; simpl. lia.
  - reflexivity.
  - repeat constructor; simpl; lia.
Defined.

(** With a threshold above 100% the branch does fire: the one-hop route
    replaces the three-hop route although it quotes less. *)
Example exactIn_large_threshold_prefers_fewer_hops :
  reduce (exactInReducer oneBips (Percent 101 100) [hop3; hop1]) [quote 1000; quote 999] noBest
  = Ok {| bestRoute := Some hop1; bestAmount := Some 999 |}.
Proof. reflexivity. Qed.

(** ** The trade is the best quote *)

Lemma usableAt_of_quote routes quotes q a :
  aligned routes quotes -> q ∈ quotes -> result q = Some a ->
  exists i r, usableAt (zip routes quotes) i r a.
Proof.
  intros Hal [i Hi]%list_elem_of_lookup Hres.
  destruct (lookup_lt_is_Some_2 routes i) as [r Hr].
  { unfold aligned in Hal. apply lookup_lt_Some in Hi. lia. }
  exists i, r. apply usableAt_zip. eauto.
Qed.

(** On aligned lists with non-negative quotes: under a threshold of at most
    99.99% the trade of the exact-input selector has the largest quoted
    output, and under a non-negative threshold the trade of the
    exact-output selector has the smallest quoted input. *)
Theorem trade_is_best_quote ONE_BIPS THRESHOLD ONE_HUNDRED
    amount other routes routesLoading quotes :
  aligned routes quotes -> nonNegativeQuotes quotes ->
  (isOneBips ONE_BIPS -> atMostOneMinusOneBips THRESHOLD ->
   forall res t,
     bestV3TradeExactIn ONE_BIPS THRESHOLD amount other routes routesLoading quotes = Ok res ->
     trade res = Some t ->
     forall q a, q ∈ quotes -> result q = Some a -> a <= raw (outputAmount t)) /\
  (nonNegativeFraction THRESHOLD -> isOneHundredPercent ONE_HUNDRED ->
   forall res t,
     bestV3TradeExactOut THRESHOLD ONE_HUNDRED other amount routes routesLoading quotes = Ok res ->
     trade res = Some t ->
     forall q a, q ∈ quotes -> result q = Some a -> raw (inputAmount t) <= a).
Proof.
  intros Hal Hnn. split.
  - intros HO HT res t. rewrite bestV3TradeExactIn_unfold.
    destruct amount as [fixed|], other as [cur|]; try by intros [= <-].
    destruct (_ || _); [by intros [= <-]|].
    rewrite (reduce_exactIn_spec _ _ _ _ Hal); simpl. unfold specReduceIn.
    pose proof (foldl_specStep_firstMaximum
      (fun B R hb hc => bool_decide (adoptExactIn ONE_BIPS THRESHOLD B R hb hc))
      (zip routes quotes)) as Hmax.
    destruct Hmax as [[-> _]|(i & r & a0 & -> & _ & Hall & _)].
    + intros B R hb hc HR. apply bool_decide_ext. by apply adoptExactIn_iff.
    + by apply nonNegativeQuotes_zip.
    + by intros [= <-].
    + simpl. destruct (sdkAccepts _ _ _ _); [|done].
      intros [= <-] [= <-] q a Hq Hres.
      destruct (usableAt_of_quote _ _ _ _ Hal Hq Hres) as (j & r' & Hu).
      by specialize (Hall _ _ _ Hu).
  - intros HT HH res t. rewrite bestV3TradeExactOut_unfold.
    destruct amount as [fixed|], other as [cur|]; try by intros [= <-].
    destruct (some _ _); [by intros [= <-]|].
    destruct (_ || _); [by intros [= <-]|].
    rewrite (reduce_exactOut_spec _ _ _ _ Hal); simpl. unfold specReduceOut.
    pose proof (foldl_specStep_firstMinimum
      (fun B R hb hc => bool_decide (adoptExactOut THRESHOLD ONE_HUNDRED B R hb hc))
      (zip routes quotes)) as Hmin.
    destruct Hmin as [[-> _]|(i & r & a0 & -> & _ & Hall & _)].
    + intros B R hb hc HB. apply bool_decide_ext. by apply adoptExactOut_iff.
    + intros i r a. by apply usableAt_zip_nonneg.
    + by intros [= <-].
    + simpl. destruct (sdkAccepts _ _ _ _); [|done].
      intros [= <-] [= <-] q a Hq Hres.
      destruct (usableAt_of_quote _ _ _ _ Hal Hq Hres) as (j & r' & Hu).
      by specialize (Hall _ _ _ Hu).
Qed.

Lemma trade_is_best_quote_witness :
  990 <= raw (amountOf (TokenCurrency tokenB) 1000) /\
  raw (amountOf (TokenCurrency tokenA) 990) <= 1000.
Proof.
  assert (nonNegativeQuotes [quote 990; quote 1000]) as Hnn
    by (repeat constructor; simpl; lia).
  split.
  - destruct (trade_is_best_quote oneBips fiftyBips oneHundredPercent
                (Some (amountOf (TokenCurrency tokenA) 5)) (Some (TokenCurrency tokenB))
                [hop1; hop3] false [quote 990; quote 1000] eq_refl Hnn) as [Hin _].
    pose (t := mkTrade hop3 EXACT_INPUT (amountOf (TokenCurrency tokenA) 5)
                 (amountOf (TokenCurrency tokenB) 1000)).
    apply (Hin ltac:(unfold isOneBips; simpl; lia)
               ltac:(unfold atMostOneMinusOneBips; simpl; lia)
               {| state := VALID; trade := Some t |} t eq_refl eq_refl (quote 990));
      [apply list_elem_of_here|reflexivity].
  - destruct (trade_is_best_quote oneBips fiftyBips oneHundredPercent
                (Some (amountOf (TokenCurrency tokenB) 5)) (Some (TokenCurrency tokenA))
                [hop1; hop3] false [quote 990; quote 1000] eq_refl Hnn) as [_ Hout].
    pose (t := mkTrade hop1 EXACT_OUTPUT (amountOf (TokenCurrency tokenA) 990)
                 (amountOf (TokenCurrency tokenB) 5)).
    apply (Hout ltac:(unfold nonNegativeFraction; simpl; lia)
                ltac:(unfold isOneHundredPercent; simpl; lia)
                {| state := VALID; trade := Some t |} t eq_refl eq_refl (quote 1000));
      [apply list_elem_of_further, list_elem_of_here|reflexivity].
Defined.

(** ** How the reduction composes *)

Lemma foldl_specStep_filter adopt pairs best :
  foldl (specStep adopt) best (filter (fun pair => is_Some (result pair.2)) pairs) =
  foldl (specStep adopt) best pairs.
Proof.
  revert best. induction pairs as [|pair pairs IH]; intros best; [done|].
  rewrite filter_cons. simpl. destruct (decide (is_Some (result pair.2))) as [Hu|Hn]; simpl.
  - apply IH.
  - rewrite IH. f_equal. unfold specStep.
    destruct (result pair.2); [|done]. destruct Hn. by eexists.
Qed.

Lemma usablePairs_aligned routes quotes :
  aligned (usablePairs routes quotes).*1 (usablePairs routes quotes).*2.
Proof. unfold aligned. by rewrite !length_fmap. Qed.

(** The pairs without an amount do not matter: on aligned lists, either
    reduction returns what it returns on the routes and quotes of the
    usable pairs alone. *)
Theorem absent_quotes_are_irrelevant ONE_BIPS THRESHOLD ONE_HUNDRED routes quotes :
  aligned routes quotes ->
  let usableRoutes := (usablePairs routes quotes).*1 in
  let usableQuotes := (usablePairs routes quotes).*2 in
  reduce (exactInReducer ONE_BIPS THRESHOLD routes) quotes noBest =
    reduce (exactInReducer ONE_BIPS THRESHOLD usableRoutes) usableQuotes noBest /\
  reduce (exactOutReducer THRESHOLD ONE_HUNDRED routes) quotes noBest =
    reduce (exactOutReducer THRESHOLD ONE_HUNDRED usableRoutes) usableQuotes noBest.
Proof.
  intros Hal usableRoutes usableQuotes.
  pose proof (usablePairs_aligned routes quotes) as Hal'.
  rewrite (reduce_exactIn_spec _ _ _ _ Hal), (reduce_exactIn_spec _ _ _ _ Hal').
  rewrite (reduce_exactOut_spec _ _ _ _ Hal), (reduce_exactOut_spec _ _ _ _ Hal').
  rewrite zip_fst_snd. unfold specReduceIn, specReduceOut, usablePairs.
  by rewrite !foldl_specStep_filter.
Qed.

Lemma absent_quotes_are_irrelevant_witness :
  reduce (exactInReducer oneBips fiftyBips [hop1; hop3; hop1])
         [quote 990; quoteEmpty; quote 1000] noBest =
  reduce (exactInReducer oneBips fiftyBips [hop1; hop1]) [quote 990; quote 1000] noBest.
Proof.
  apply (absent_quotes_are_irrelevant oneBips fiftyBips oneHundredPercent
           [hop1; hop3; hop1] [quote 990; quoteEmpty; quote 1000]).
  reflexivity.
Defined.

Lemma fromPairs_quote routes quotes best a :
  fromPairs (zip routes quotes) best -> bestAmount best = Some a ->
  exists q, q ∈ quotes /\ result q = Some a.
Proof.
  intros [->|(i & r & a' & (Hr & q & Hq & Hres)%usableAt_zip & ->)]; [done|].
  intros [= <-]. exists q. split; [|done]. by eapply list_elem_of_lookup_2.
Qed.

(** A pair appended to aligned lists wins the exact-input reduction when
    its amount is strictly above every quoted amount, and wins the
    exact-output reduction when its amount is strictly below every quoted
    amount, whatever the constants and the hop counts. *)
Theorem strictly_better_last_pair_wins ONE_BIPS THRESHOLD ONE_HUNDRED routes quotes r q R :
  aligned routes quotes ->
  result q = Some R ->
  ((forall q' a, q' ∈ quotes -> result q' = Some a -> a < R) ->
   reduce (exactInReducer ONE_BIPS THRESHOLD (routes ++ [r])) (quotes ++ [q]) noBest =
   Ok {| bestRoute := Some r; bestAmount := Some R |}) /\
  ((forall q' a, q' ∈ quotes -> result q' = Some a -> R < a) ->
   reduce (exactOutReducer THRESHOLD ONE_HUNDRED (routes ++ [r])) (quotes ++ [q]) noBest =
   Ok {| bestRoute := Some r; bestAmount := Some R |}).
Proof.
  intros Hal HR.
  assert (aligned (routes ++ [r]) (quotes ++ [q])) as Hal'.
  { unfold aligned in *. rewrite !length_app. simpl. lia. }
  split; intros Hbetter.
  - rewrite (reduce_exactIn_spec _ _ _ _ Hal'). f_equal.
    unfold specReduceIn. rewrite zip_with_app by done. rewrite foldl_app. simpl.
    pose proof (foldl_specStep_fromPairs
      (fun B R hb hc => bool_decide (adoptExactIn ONE_BIPS THRESHOLD B R hb hc))
      (zip routes quotes)) as Hfrom.
    unfold specStep at 1. simpl. rewrite HR.
    destruct (bestAmount _) as [B|] eqn:HB; [|done].
    destruct (fromPairs_quote _ _ _ _ Hfrom HB) as (q' & Hq' & Hres).
    rewrite bool_decide_eq_true_2; [done|]. left. by eapply Hbetter.
  - rewrite (reduce_exactOut_spec _ _ _ _ Hal'). f_equal.
    unfold specReduceOut. rewrite zip_with_app by done. rewrite foldl_app. simpl.
    pose proof (foldl_specStep_fromPairs
      (fun B R hb hc => bool_decide (adoptExactOut THRESHOLD ONE_HUNDRED B R hb hc))
      (zip routes quotes)) as Hfrom.
    unfold specStep at 1. simpl. rewrite HR.
    destruct (bestAmount _) as [B|] eqn:HB; [|done].
    destruct (fromPairs_quote _ _ _ _ Hfrom HB) as (q' & Hq' & Hres).
    rewrite bool_decide_eq_true_2; [done|]. left.
    specialize (Hbetter _ _ Hq' Hres). lia.
Qed.

Lemma strictly_better_last_pair_wins_witness :
  reduce (exactInReducer oneBips (Percent 101 100) ([hop1; hop1] ++ [hop3]))
         ([quote 990; quote 995] ++ [quote 1000]) noBest =
  Ok {| bestRoute := Some hop3; bestAmount := Some 1000 |}.
Proof.
  apply (strictly_better_last_pair_wins oneBips (Percent 101 100) oneHundredPercent
           [hop1; hop1] [quote 990; quote 995] hop3 (quote 1000) 1000).
  - reflexivity.
  - reflexivity.
  - intros q' a Hq' Hres.
    apply elem_of_cons in Hq' as [->|Hq'].
    { simpl in Hres. injection Hres as <-. lia. }
    apply elem_of_cons in Hq' as [->|Hq'].
    { simpl in Hres. injection Hres as <-. lia. }
    by apply elem_of_nil in Hq'.
Defined.

(** The best amount of a first maximum, and of a first minimum, is fixed by
    the multiset of pairs. *)
Lemma usableAt_elem_of pairs a :
  (exists i r, usableAt pairs i r a) <->
  exists pair, pair ∈ pairs /\ result pair.2 = Some a.
Proof.
  split.
  - intros (i & r & q & Hq & Hres). exists (r, q). split; [|done].
    by eapply list_elem_of_lookup_2.
  - intros ([r q] & [i Hi]%list_elem_of_lookup & Hres). exists i, r, q. by split.
Qed.

Lemma firstMaximum_amount_perm pairs pairs' best best' :
  pairs ≡ₚ pairs' -> firstMaximum pairs best -> firstMaximum pairs' best' ->
  bestAmount best = bestAmount best'.
Proof.
  intros Hperm
    [[-> Hnone]|(i & r & a & -> & Hi & Hall & _)]
    [[-> Hnone']|(i' & r' & a' & -> & Hi' & Hall' & _)]; simpl; try done.
  - destruct (proj1 (usableAt_elem_of pairs' a')) as (pair & Hin & Hres); [eauto|].
    rewrite <- Hperm in Hin.
    destruct (proj2 (usableAt_elem_of pairs a')) as (j & r0 & Hu); [eauto|].
    by destruct (Hnone _ _ _ Hu).
  - destruct (proj1 (usableAt_elem_of pairs a)) as (pair & Hin & Hres); [eauto|].
    rewrite Hperm in Hin.
    destruct (proj2 (usableAt_elem_of pairs' a)) as (j & r0 & Hu); [eauto|].
    by destruct (Hnone' _ _ _ Hu).
  - destruct (proj1 (usableAt_elem_of pairs a)) as (pair & Hin & Hres); [eauto|].
    rewrite Hperm in Hin.
    destruct (proj2 (usableAt_elem_of pairs' a)) as (j & r0 & Hu); [eauto|].
    destruct (proj1 (usableAt_elem_of pairs' a')) as (pair' & Hin' & Hres'); [eauto|].
    rewrite <- Hperm in Hin'.
    destruct (proj2 (usableAt_elem_of pairs a')) as (j' & r0' & Hu'); [eauto|].
    specialize (Hall _ _ _ Hu'). specialize (Hall' _ _ _ Hu). f_equal. lia.
Qed.

Lemma firstMinimum_amount_perm pairs pairs' best best' :
  pairs ≡ₚ pairs' -> firstMinimum pairs best -> firstMinimum pairs' best' ->
  bestAmount best = bestAmount best'.
Proof.
  intros Hperm
    [[-> Hnone]|(i & r & a & -> & Hi & Hall & _)]
    [[-> Hnone']|(i' & r' & a' & -> & Hi' & Hall' & _)]; simpl; try done.
  - destruct (proj1 (usableAt_elem_of pairs' a')) as (pair & Hin & Hres); [eauto|].
    rewrite <- Hperm in Hin.
    destruct (proj2 (usableAt_elem_of pairs a')) as (j & r0 & Hu); [eauto|].
    by destruct (Hnone _ _ _ Hu).
  - destruct (proj1 (usableAt_elem_of pairs a)) as (pair & Hin & Hres); [eauto|].
    rewrite Hperm in Hin.
    destruct (proj2 (usableAt_elem_of pairs' a)) as (j & r0 & Hu); [eauto|].
    by destruct (Hnone' _ _ _ Hu).
  - destruct (proj1 (usableAt_elem_of pairs a)) as (pair & Hin & Hres); [eauto|].
    rewrite Hperm in Hin.
    destruct (proj2 (usableAt_elem_of pairs' a)) as (j & r0 & Hu); [eauto|].
    destruct (proj1 (usableAt_elem_of pairs' a')) as (pair' & Hin' & Hres'); [eauto|].
    rewrite <- Hperm in Hin'.
    destruct (proj2 (usableAt_elem_of pairs a')) as (j' & r0' & Hu'); [eauto|].
    specialize (Hall _ _ _ Hu'). specialize (Hall' _ _ _ Hu). f_equal. lia.
Qed.

Lemma usableAt_Forall_nonneg pairs i r a :
  Forall (fun pair : Route * CallState =>
            from_option (fun a => 0 <= a) True (result pair.2)) pairs ->
  usableAt pairs i r a -> 0 <= a.
Proof.
  intros Hnn (q & Hq & Hres). rewrite Forall_lookup in Hnn.
  specialize (Hnn _ _ Hq). simpl in Hnn. by rewrite Hres in Hnn.
Qed.

(** The amount of the winner does not depend on the order of the pairs:
    when the fewer-hops branch cannot fire (threshold of at most 99.99% for
    exact input, non-negative threshold for exact output) and the quotes
    are non-negative, two aligned inputs whose pairs are a permutation of
    each other reduce to the same best amount. *)
Theorem winning_amount_order_independent ONE_BIPS THRESHOLD ONE_HUNDRED
    routes quotes routes' quotes' :
  aligned routes quotes -> aligned routes' quotes' ->
  zip routes quotes ≡ₚ zip routes' quotes' ->
  nonNegativeQuotes quotes ->
  (isOneBips ONE_BIPS -> atMostOneMinusOneBips THRESHOLD ->
   exists best best',
     reduce (exactInReducer ONE_BIPS THRESHOLD routes) quotes noBest = Ok best /\
     reduce (exactInReducer ONE_BIPS THRESHOLD routes') quotes' noBest = Ok best' /\
     bestAmount best = bestAmount best') /\
  (nonNegativeFraction THRESHOLD -> isOneHundredPercent ONE_HUNDRED ->
   exists best best',
     reduce (exactOutReducer THRESHOLD ONE_HUNDRED routes) quotes noBest = Ok best /\
     reduce (exactOutReducer THRESHOLD ONE_HUNDRED routes') quotes' noBest = Ok best' /\
     bestAmount best = bestAmount best').
Proof.
  intros Hal Hal' Hperm Hnn.
  pose proof (nonNegativeQuotes_zip routes quotes Hnn) as Hpairs.
  assert (Forall (fun pair : Route * CallState =>
                    from_option (fun a => 0 <= a) True (result pair.2))
                 (zip routes' quotes')) as Hpairs' by by rewrite <- Hperm.
  split.
  - intros HO HT. do 2 eexists.
    split; [by apply reduce_exactIn_spec|]. split; [by apply reduce_exactIn_spec|].
    assert (forall B R (hb : option Z) (hc : Z), 0 <= R ->
              bool_decide (adoptExactIn ONE_BIPS THRESHOLD B R hb hc) = bool_decide (B < R))
      as Hadopt.
    { intros B R hb hc HR. apply bool_decide_ext. by apply adoptExactIn_iff. }
    eapply firstMaximum_amount_perm; [exact Hperm| |];
      by apply foldl_specStep_firstMaximum.
  - intros HT HH. do 2 eexists.
    split; [by apply reduce_exactOut_spec|]. split; [by apply reduce_exactOut_spec|].
    assert (forall B R (hb : option Z) (hc : Z), 0 <= B ->
              bool_decide (adoptExactOut THRESHOLD ONE_HUNDRED B R hb hc) = bool_decide (R < B))
      as Hadopt.
    { intros B R hb hc HB. apply bool_decide_ext. by apply adoptExactOut_iff. }
    eapply firstMinimum_amount_perm; [exact Hperm| |];
      (apply foldl_specStep_firstMinimum; [done|]);
      intros i r a; by apply usableAt_Forall_nonneg.
Qed.

Lemma winning_amount_order_independent_witness :
  exists best best',
    reduce (exactInReducer oneBips fiftyBips [hop1; hop3]) [quote 1000; quote 1000] noBest
      = Ok best /\
    reduce (exactInReducer oneBips fiftyBips [hop3; hop1]) [quote 1000; quote 1000] noBest
      = Ok best' /\
    bestAmount best = bestAmount best'.
Proof.
  destruct (winning_amount_order_independent oneBips fiftyBips oneHundredPercent
              [hop1; hop3] [quote 1000; quote 1000] [hop3; hop1] [quote 1000; quote 1000])
    as [Hin _].
  - reflexivity.
  - reflexivity.
  - simpl. apply perm_swap.
  - repeat constructor; simpl; lia.
  - apply Hin.
    + unfold isOneBips; simpl. lia.
    + unfold atMostOneMinusOneBips; simpl. lia.
Defined.

(** On a tie the route does depend on the order: the first pair wins. *)
Example tie_keeps_first_route :
  reduce (exactInReducer oneBips fiftyBips [hop1; hop3]) [quote 1000; quote 1000] noBest
    = Ok {| bestRoute := Some hop1; bestAmount := Some 1000 |} /\
  reduce (exactInReducer oneBips fiftyBips [hop3; hop1]) [quote 1000; quote 1000] noBest
    = Ok {| bestRoute := Some hop3; bestAmount := Some 1000 |}.
Proof. split; reflexivity. Qed.

(** ** The inputs of the quoter calls *)

Lemma toString16_inj z1 z2 : toString16 z1 = toString16 z2 -> z1 = z2.
Proof.
  assert (Hpos : forall p q, HexString.Raw.of_pos p "" = HexString.Raw.of_pos q "" -> p = q).
  { intros p q Heq. apply (f_equal (fun s => HexString.Raw.to_N s 0%N)) in Heq.
    rewrite !HexString.Raw.to_N_of_pos in Heq. simpl in Heq. congruence. }
  destruct z1 as [|p|p], z2 as [|q|q]; simpl; intros Heq; try done.
  - apply (f_equal (fun s => HexString.Raw.to_N s 0%N)) in Heq.
    rewrite HexString.Raw.to_N_of_pos in Heq. done.
  - apply (f_equal (fun s => HexString.Raw.to_N s 0%N)) in Heq.
    rewrite HexString.Raw.to_N_of_pos in Heq. done.
  - by rewrite (Hpos _ _ Heq).
  - pose proof (f_equal (fun s => HexString.Raw.to_N s 0%N) Heq) as HN. simpl in HN.
    rewrite !HexString.Raw.to_N_of_pos in HN. simpl in HN. injection HN as ->.
    apply (f_equal String.length) in Heq. simpl in Heq. lia.
  - pose proof (f_equal (fun s => HexString.Raw.to_N s 0%N) Heq) as HN. simpl in HN.
    rewrite !HexString.Raw.to_N_of_pos in HN. simpl in HN. injection HN as ->.
    apply (f_equal String.length) in Heq. simpl in Heq. lia.
  - injection Heq as Heq. by rewrite (Hpos _ _ Heq).
Qed.

Lemma hexAmount_inj a b : hexAmount a = hexAmount b -> raw a = raw b.
Proof. unfold hexAmount. intros [= Heq]. by apply toString16_inj. Qed.

(** The serialised amount of a non-negative raw amount is its 0x-prefixed
    lower-case hexadecimal numeral, which reads back as the amount; and
    amounts with different raw values, of any sign, serialise differently. *)
Theorem hexAmount_round_trip (a b : CurrencyAmount) :
  (0 <= raw a -> hexAmount a = HexString.of_Z (raw a) /\ HexString.to_Z (hexAmount a) = raw a) /\
  (hexAmount a = hexAmount b -> raw a = raw b).
Proof.
  split.
  - intros Hnn. assert (hexAmount a = HexString.of_Z (raw a)) as Heq.
    { unfold hexAmount. destruct (raw a); [done..|lia]. }
    split; [done|]. rewrite Heq. apply HexString.to_Z_of_Z.
  - apply hexAmount_inj.
Qed.

Lemma hexAmount_round_trip_witness :
  hexAmount (amountOf ETHER 255) = "0xff" /\
  HexString.to_Z (hexAmount (amountOf ETHER 255)) = 255.
Proof.
  destruct (hexAmount_round_trip (amountOf ETHER 255) (amountOf ETHER 255))
    as [Hround _].
  apply Hround. simpl. lia.
Defined.

Example hexAmount_examples :
  hexAmount (amountOf ETHER 0) = "0x0" /\
  hexAmount (amountOf (TokenCurrency tokenA) 1000000000000000000) = "0xde0b6b3a7640000" /\
  hexAmount (amountOf ETHER (-255)) = "0x-ff".
Proof. repeat split. Qed.

Section QuoteInputsFacts.

Context {Path : Type}.
Variable encodeRouteToPath : Route -> bool -> Path.

Lemma quoteInputs_eq_iff (exactOutput : bool) (a b : option CurrencyAmount) routes :
  routes <> [] ->
  (fun route => (encodeRouteToPath route exactOutput, hexAmount <$> a)) <$> routes =
  (fun route => (encodeRouteToPath route exactOutput, hexAmount <$> b)) <$> routes
  <-> raw <$> a = raw <$> b.
Proof.
  intros Hne. split.
  - destruct routes as [|r routes]; [done|]. intros [= Heq _].
    destruct a as [a|], b as [b|]; try done.
    change (Some (hexAmount a) = Some (hexAmount b)) in Heq.
    change (Some (raw a) = Some (raw b)).
    f_equal. apply hexAmount_inj. congruence.
  - intros Heq. assert (hexAmount <$> a = hexAmount <$> b) as ->; [|done].
    destruct a as [a|], b as [b|]; simpl in *; try done.
    injection Heq as Heq. unfold hexAmount. by rewrite Heq.
Qed.

End QuoteInputsFacts.

(** The quoter inputs have one entry per route, at the position of the
    route, and depend on the amount through its raw value only: for a
    non-empty route list two amounts give the same inputs exactly when both
    are absent or both have the same raw value. *)
Theorem quote_inputs_by_route_and_raw_amount {Path : Type}
    (encodeRouteToPath : Route -> bool -> Path) (a b : option CurrencyAmount) routes :
  (length (quoteExactInInputs encodeRouteToPath a routes) = length routes /\
   length (quoteExactOutInputs encodeRouteToPath a routes) = length routes) /\
  (forall i route,
     routes !! i = Some route ->
     quoteExactInInputs encodeRouteToPath a routes !! i
       = Some (encodeRouteToPath route false, hexAmount <$> a) /\
     quoteExactOutInputs encodeRouteToPath a routes !! i
       = Some (encodeRouteToPath route true, hexAmount <$> a)) /\
  (routes <> [] ->
   (quoteExactInInputs encodeRouteToPath a routes = quoteExactInInputs encodeRouteToPath b routes
    <-> raw <$> a = raw <$> b) /\
   (quoteExactOutInputs encodeRouteToPath a routes = quoteExactOutInputs encodeRouteToPath b routes
    <-> raw <$> a = raw <$> b)).
Proof.
  unfold quoteExactInInputs, quoteExactOutInputs. split; [|split].
  - by rewrite !length_fmap.
  - intros i route Hi. by rewrite !list_lookup_fmap, Hi.
  - intros Hne. split; by apply quoteInputs_eq_iff.
Qed.

Lemma quote_inputs_by_route_and_raw_amount_witness :
  quoteExactInInputs (fun route exactOutput => (exactOutput, tokenPath route))
    (Some (amountOf ETHER 255)) [hop1; hop3] !! 1%nat
  = Some ((false, tokenPath hop3), Some "0xff") /\
  (quoteExactInInputs (fun route exactOutput => (exactOutput, tokenPath route))
     (Some (amountOf ETHER 255)) [hop1; hop3]
   = quoteExactInInputs (fun route exactOutput => (exactOutput, tokenPath route))
       (Some (amountOf (TokenCurrency tokenA) 255)) [hop1; hop3]
   <-> raw <$> Some (amountOf ETHER 255) = raw <$> Some (amountOf (TokenCurrency tokenA) 255)).
Proof.
  destruct (quote_inputs_by_route_and_raw_amount
              (fun route exactOutput => (exactOutput, tokenPath route))
              (Some (amountOf ETHER 255)) (Some (amountOf (TokenCurrency tokenA) 255))
              [hop1; hop3]) as (_ & Hat & Hsame).
  split.
  - apply (Hat 1%nat hop3). reflexivity.
  - apply Hsame. done.
Defined.
